(** * usd-cad-tracker: the LifeRhythm agent and the rate widget

    A shallow embedding of [liferhythm-agent/agent.js] (the date context
    builder, the MCP tool bridge and the agentic loop of [process]) and of
    the chart bookkeeping of the widget's [app.js], with the properties the
    specification states about them.

    Conventions.
    - A JavaScript string is the list of its UTF-16 code units.
    - A [Date] is its time value: milliseconds since the epoch, or NaN
      ([None]) for an invalid date.
    - An [async] method is a computation in the monad [M]: it reads and
      writes the machine configuration and either returns or throws.
    - The hosted decision service and the MCP peer are deterministic
      functions of the history of the calls made to them so far. *)

From Stdlib Require Import ZArith Lia String Ascii List Bool.
From stdpp Require Import base option list gmap.
Import ListNotations.
Local Open Scope Z_scope.

(* ===================================================================== *)
(** * JavaScript strings *)
(* ===================================================================== *)

Module Js.

(** A string value: its UTF-16 code units. *)
Abbreviation jsstring := (list N).

(** An ASCII literal of the source. *)
Definition lit (s : string) : jsstring :=
  map N_of_ascii (list_ascii_of_string s).

(** [WhiteSpace] and [LineTerminator] code points of ECMAScript, the ones
    [String.prototype.trim] strips. *)
Definition is_white (c : N) : bool :=
  existsb (N.eqb c)
    [9; 10; 11; 12; 13; 32; 160; 5760; 8232; 8233; 8239; 8287; 12288; 65279]%N
  || ((8192 <=? c) && (c <=? 8202))%N.

Fixpoint trimStart (s : jsstring) : jsstring :=
  match s with
  | c :: s' => if is_white c then trimStart s' else s
  | [] => []
  end.

Definition trimEnd (s : jsstring) : jsstring := rev (trimStart (rev s)).

(** [s.trim()] *)
Definition trim (s : jsstring) : jsstring := trimEnd (trimStart s).

(** [parts.join(sep)] *)
Fixpoint join (sep : jsstring) (parts : list jsstring) : jsstring :=
  match parts with
  | [] => []
  | [p] => p
  | p :: rest => p ++ sep ++ join sep rest
  end.

(** [s.split(sep)[0]] for a one-unit separator: the text before the first
    occurrence of [sep], or all of [s] when there is none. *)
Fixpoint split0 (sep : N) (s : jsstring) : jsstring :=
  match s with
  | [] => []
  | c :: s' => if N.eqb c sep then [] else c :: split0 sep s'
  end.

Fixpoint starts_with (p s : jsstring) : bool :=
  match p, s with
  | [], _ => true
  | a :: p', b :: s' => N.eqb a b && starts_with p' s'
  | _ :: _, [] => false
  end.

(** [s.includes(p)] *)
Fixpoint includes (p s : jsstring) : bool :=
  starts_with p s ||
  match s with
  | [] => false
  | _ :: s' => includes p s'
  end.

(** One decimal digit. *)
Definition digit (d : Z) : N := (48 + Z.to_N (d mod 10))%N.

(** [String(n)] for a non-negative integer [n]; [fuel] bounds the number
    of digits. *)
Fixpoint digits_of (fuel : nat) (n : Z) (acc : jsstring) : jsstring :=
  match fuel with
  | O => acc
  | S fuel' =>
      if n <? 10 then digit n :: acc
      else digits_of fuel' (n / 10) (digit n :: acc)
  end.

Definition decimal (n : Z) : jsstring :=
  if n <? 0 then lit "-" ++ digits_of 40 (- n) []
  else digits_of 40 n [].

(** [String(n).padStart(w, '0')] for [0 <= n < 10^w]. *)
Fixpoint pad (w : nat) (n : Z) : jsstring :=
  match w with
  | O => []
  | S w' => pad w' (n / 10) ++ [digit n]
  end.

(** A thrown value: an [Error] object, by constructor name and message. *)
Record JsError := mkError { err_name : jsstring; err_message : jsstring }.

Definition Error (msg : jsstring) : JsError := mkError (lit "Error") msg.
Definition RangeError (msg : jsstring) : JsError := mkError (lit "RangeError") msg.
Definition TypeError (msg : jsstring) : JsError := mkError (lit "TypeError") msg.

(** ** Facts about strings *)

Lemma split0_app sep (a b : jsstring) :
  Forall (fun c => c <> sep) a -> split0 sep (a ++ sep :: b) = a.
Proof.
  induction 1 as [|c a Hc _ IH]; simpl.
  - rewrite N.eqb_refl. reflexivity.
  - apply N.eqb_neq in Hc. rewrite Hc, IH. reflexivity.
Qed.

Lemma digit_range d : (48 <= digit d <= 57)%N.
Proof.
  unfold digit. pose proof (Z.mod_pos_bound d 10 ltac:(lia)). lia.
Qed.

Lemma pad_digits w : forall n, Forall (fun c => (48 <= c <= 57)%N) (pad w n).
Proof.
  induction w as [|w IH]; intros n; simpl; [constructor|].
  apply Forall_app. split; [apply IH|].
  constructor; [apply digit_range|constructor].
Qed.

End Js.
Import Js.

(* ===================================================================== *)
(** * The [Date] object *)
(* ===================================================================== *)

Module JsDate.

Definition msPerDay : Z := 86400000.
Definition maxTime : Z := 8640000000000000.

(** [Day(t)], [TimeWithinDay(t)] and [WeekDay(t)] of ECMAScript. *)
Definition Day (t : Z) : Z := t / msPerDay.
Definition TimeWithinDay (t : Z) : Z := t mod msPerDay.
Definition WeekDay (t : Z) : Z := (Day t + 4) mod 7.

(** The proleptic Gregorian calendar, by eras of 400 years starting on
    1 March: the day number of a civil date and back. Months are 1..12
    here; [MonthFromTime] below is 0-based as in ECMAScript. *)
Definition days_from_civil (y m d : Z) : Z :=
  let y' := if m <=? 2 then y - 1 else y in
  let era := y' / 400 in
  let yoe := y' - era * 400 in
  let mp := if 2 <? m then m - 3 else m + 9 in
  let doy := (153 * mp + 2) / 5 + d - 1 in
  let doe := yoe * 365 + yoe / 4 - yoe / 100 + doy in
  era * 146097 + doe - 719468.

Definition civil_from_days (z : Z) : Z * Z * Z :=
  let z' := z + 719468 in
  let era := z' / 146097 in
  let doe := z' - era * 146097 in
  let yoe := (doe - doe / 1460 + doe / 36524 - doe / 146096) / 365 in
  let doy := doe - (365 * yoe + yoe / 4 - yoe / 100) in
  let mp := (5 * doy + 2) / 153 in
  let d := doy - (153 * mp + 2) / 5 + 1 in
  let m := if mp <? 10 then mp + 3 else mp - 9 in
  let y := yoe + era * 400 in
  (if m <=? 2 then y + 1 else y, m, d).

Definition YearFromTime (t : Z) : Z := fst (fst (civil_from_days (Day t))).
Definition MonthFromTime (t : Z) : Z := snd (fst (civil_from_days (Day t))) - 1.
Definition DateFromTime (t : Z) : Z := snd (civil_from_days (Day t)).

(** [MakeDay(year, month, date)]: the day number of the first of the
    month, plus [date - 1]; [date] may be zero or negative. *)
Definition MakeDay (year month date : Z) : Z :=
  let ym := year + month / 12 in
  let mn := month mod 12 in
  days_from_civil ym (mn + 1) 1 + date - 1.

Definition MakeDate (day time : Z) : Z := day * msPerDay + time.

(** [TimeClip]: a time value out of range is NaN. *)
Definition TimeClip (t : Z) : option Z :=
  if maxTime <? Z.abs t then None else Some t.

(** The host's time zone: the offset (in ms) of local time from UTC, given
    a UTC time value ([LocalTZA(t, true)]) or a local one
    ([LocalTZA(t, false)]). *)
Record TimeZone := mkTZ { tza_utc : Z -> Z; tza_local : Z -> Z }.

(** A zone with a fixed offset. *)
Definition fixed_zone (offset_ms : Z) : TimeZone :=
  mkTZ (fun _ => offset_ms) (fun _ => offset_ms).

Definition UTC_zone : TimeZone := fixed_zone 0.

Section Zone.
Variable tz : TimeZone.

Definition LocalTime (t : Z) : Z := t + tza_utc tz t.
Definition UTC (t : Z) : Z := t - tza_local tz t.

(** [date.getDay()] and [date.getDate()]: local time. *)
Definition getDay (t : Z) : Z := WeekDay (LocalTime t).
Definition getDate (t : Z) : Z := DateFromTime (LocalTime t).

(** [d.setDate(dt)]: the new time value of [d] (NaN when out of range). *)
Definition setDate (t : Z) (dt : Z) : option Z :=
  let lt := LocalTime t in
  let newDate :=
    MakeDate (MakeDay (YearFromTime lt) (MonthFromTime lt) dt) (TimeWithinDay lt) in
  TimeClip (UTC newDate).

End Zone.

(** The year of [toISOString]: four digits, or a sign and six digits
    outside 0..9999. *)
Definition iso_year (y : Z) : jsstring :=
  if (0 <=? y) && (y <=? 9999) then pad 4 y
  else (if y <? 0 then lit "-" else lit "+") ++ pad 6 (Z.abs y).

(** The calendar date [YYYY-MM-DD] of day number [day]. *)
Definition iso_date_of_day (day : Z) : jsstring :=
  let '(y, m, d) := civil_from_days day in
  iso_year y ++ lit "-" ++ pad 2 m ++ lit "-" ++ pad 2 d.

(** [date.toISOString()]: UTC; throws a [RangeError] on an invalid date. *)
Definition toISOString (date : option Z) : JsError + jsstring :=
  match date with
  | None => inl (RangeError (lit "Invalid time value"))
  | Some t =>
      let tod := TimeWithinDay t in
      inr (iso_date_of_day (Day t) ++ lit "T"
           ++ pad 2 (tod / 3600000) ++ lit ":"
           ++ pad 2 (tod / 60000 mod 60) ++ lit ":"
           ++ pad 2 (tod / 1000 mod 60) ++ lit "."
           ++ pad 3 (tod mod 1000) ++ lit "Z")
  end.

(** ** The calendar *)

Lemma era_bounds doe :
  0 <= doe < 146097 ->
  let yoe := (doe - doe / 1460 + doe / 36524 - doe / 146096) / 365 in
  let doy := doe - (365 * yoe + yoe / 4 - yoe / 100) in
  0 <= yoe < 400 /\ 0 <= doy <= 365.
Proof.
  intros H yoe doy. subst doy yoe.
  Z.div_mod_to_equations. lia.
Qed.

Lemma month_bounds doy :
  0 <= doy <= 365 ->
  let mp := (5 * doy + 2) / 153 in
  let d := doy - (153 * mp + 2) / 5 + 1 in
  0 <= mp <= 11 /\ 1 <= d <= 31.
Proof.
  intros H mp d. subst d mp.
  Z.div_mod_to_equations. lia.
Qed.

(** The day number of the civil date of a day number is that day number;
    months are 1..12 and days 1..31. *)
Lemma civil_from_days_inv z :
  let '(y, m, d) := civil_from_days z in
  days_from_civil y m d = z /\ 1 <= m <= 12 /\ 1 <= d <= 31.
Proof.
  unfold civil_from_days.
  set (z' := z + 719468).
  set (era := z' / 146097).
  set (doe := z' - era * 146097).
  assert (Hdoe : 0 <= doe < 146097).
  { subst doe era. Z.div_mod_to_equations. lia. }
  destruct (era_bounds doe Hdoe) as [Hyoe Hdoy].
  set (yoe := (doe - doe / 1460 + doe / 36524 - doe / 146096) / 365) in *.
  set (doy := doe - (365 * yoe + yoe / 4 - yoe / 100)) in *.
  destruct (month_bounds doy Hdoy) as [Hmp Hd].
  set (mp := (5 * doy + 2) / 153) in *.
  set (d := doy - (153 * mp + 2) / 5 + 1) in *.
  assert (Hera : (yoe + era * 400) / 400 = era).
  { rewrite Z.div_add by lia. rewrite Z.div_small by lia. lia. }
  unfold days_from_civil.
  destruct (mp <? 10) eqn:Hlt.
  - apply Z.ltb_lt in Hlt.
    replace (mp + 3 <=? 2) with false by (symmetry; apply Z.leb_gt; lia).
    replace (2 <? mp + 3) with true by (symmetry; apply Z.ltb_lt; lia).
    rewrite Hera. replace (mp + 3 - 3) with mp by lia.
    replace (yoe + era * 400 - era * 400) with yoe by lia.
    split; [|lia]. unfold d, doy, doe, z'. lia.
  - apply Z.ltb_ge in Hlt.
    replace (mp - 9 <=? 2) with true by (symmetry; apply Z.leb_le; lia).
    replace (2 <? mp - 9) with false by (symmetry; apply Z.ltb_ge; lia).
    replace (yoe + era * 400 + 1 - 1) with (yoe + era * 400) by lia.
    rewrite Hera. replace (mp - 9 + 9) with mp by lia.
    replace (yoe + era * 400 - era * 400) with yoe by lia.
    split; [|lia]. unfold d, doy, doe, z'. lia.
Qed.

Lemma days_from_civil_day y m d :
  days_from_civil y m d = days_from_civil y m 1 + d - 1.
Proof. unfold days_from_civil. lia. Qed.

(** [MakeDay] on the year and month of [t]: the day of [t], moved by the
    difference of the dates. *)
Lemma MakeDay_of_time t dt :
  MakeDay (YearFromTime t) (MonthFromTime t) dt = Day t + (dt - DateFromTime t).
Proof.
  unfold MakeDay, YearFromTime, MonthFromTime, DateFromTime.
  pose proof (civil_from_days_inv (Day t)) as H.
  destruct (civil_from_days (Day t)) as [[y m] d]. simpl.
  destruct H as (Hinv & Hm & _).
  rewrite Z.div_small, Z.mod_small by lia.
  rewrite days_from_civil_day in Hinv.
  replace (m - 1 + 1) with m by lia. replace (y + 0) with y by lia. lia.
Qed.

Lemma MakeDate_shift t k :
  MakeDate (Day t + k) (TimeWithinDay t) = t + k * msPerDay.
Proof.
  unfold MakeDate, Day, TimeWithinDay, msPerDay.
  Z.div_mod_to_equations. lia.
Qed.

Lemma Day_shift t k : Day (t + k * msPerDay) = Day t + k.
Proof. unfold Day, msPerDay. rewrite Z.div_add by lia. reflexivity. Qed.

(** [d.setDate(d.getDate() - diff)] moves the local time back by [diff]
    days. *)
Lemma setDate_back tz t diff :
  setDate tz t (getDate tz t - diff) =
  TimeClip (UTC tz (LocalTime tz t - diff * msPerDay)).
Proof.
  unfold setDate, getDate. rewrite MakeDay_of_time.
  replace (DateFromTime (LocalTime tz t) - diff - DateFromTime (LocalTime tz t))
    with (- diff) by lia.
  rewrite MakeDate_shift. f_equal. f_equal. lia.
Qed.

(** ** The date part of [toISOString] *)

Lemma iso_date_no_T day : Forall (fun c => c <> 84%N) (iso_date_of_day day).
Proof.
  assert (Hpad : forall w n, Forall (fun c => c <> 84%N) (pad w n)).
  { intros w n. eapply Forall_impl; [apply pad_digits|].
    simpl. intros c Hc. lia. }
  assert (Hdash : Forall (fun c => c <> 84%N) (lit "-")).
  { constructor; [discriminate|constructor]. }
  unfold iso_date_of_day. destruct (civil_from_days day) as [[y m] d].
  apply Forall_app; split;
    [|apply Forall_app; split;
       [exact Hdash
       |apply Forall_app; split;
          [apply Hpad|apply Forall_app; split; [exact Hdash|apply Hpad]]]].
  unfold iso_year. destruct ((0 <=? y) && (y <=? 9999)); [apply Hpad|].
  apply Forall_app. split; [|apply Hpad].
  destruct (y <? 0); constructor; try discriminate; constructor.
Qed.

Lemma toISOString_date t :
  exists s, toISOString (Some t) = inr s /\ split0 84%N s = iso_date_of_day (Day t).
Proof.
  eexists. split; [reflexivity|].
  change (lit "T") with [84%N]. cbn [app].
  apply split0_app, iso_date_no_T.
Qed.

End JsDate.
Import JsDate.

(* ===================================================================== *)
(** * Results of fallible code *)
(* ===================================================================== *)

(** A synchronous computation that may throw. *)
Definition bind_err {A B} (x : JsError + A) (f : A -> JsError + B) : JsError + B :=
  match x with
  | inl e => inl e
  | inr a => f a
  end.

(** [l.map((x, idx) => f(idx, x))] with a callback that may throw: the
    first exception aborts the map. *)
Fixpoint mapi_err {A B} (f : nat -> A -> JsError + B) (i : nat) (l : list A)
  : JsError + list B :=
  match l with
  | [] => inr []
  | x :: l' =>
      bind_err (f i x) (fun y =>
      bind_err (mapi_err f (S i) l') (fun ys => inr (y :: ys)))
  end.

(** [l.map((x, idx) => f(idx, x))] *)
Fixpoint mapi {A B} (f : nat -> A -> B) (i : nat) (l : list A) : list B :=
  match l with
  | [] => []
  | x :: l' => f i x :: mapi f (S i) l'
  end.

(* ===================================================================== *)
(** * agent.js: the date context builder *)
(* ===================================================================== *)

Module DateContext.

(** The two option sets [formatDateContext] passes to
    [toLocaleDateString]. *)
Inductive DateFormat :=
| WeekdayLong            (* { weekday: 'long' } *)
| FullLong.              (* { weekday, year, month, day } *)

Definition weekdays : list jsstring :=
  [lit "Sunday"; lit "Monday"; lit "Tuesday"; lit "Wednesday";
   lit "Thursday"; lit "Friday"; lit "Saturday"].

Section Host.
(** The host: its time zone and its Intl formatting of a time value for
    the locale en-CA. *)
Variable tz : TimeZone.
Variable toLocaleDateString : Z -> DateFormat -> jsstring.

(** The callback of [weekdays.map] in [formatDateContext]. *)
Definition recentWeekday (date : Z) (todayIdx : Z) (idx : nat) (name : jsstring)
  : JsError + jsstring :=
  let diff := Z.rem (todayIdx - Z.of_nat idx + 7) 7 in
  let d := setDate tz date (getDate tz date - diff) in
  bind_err (toISOString d) (fun s =>
  inr (name ++ lit ": " ++ split0 84%N s)).

Definition formatDateContext (date : option Z) : JsError + jsstring :=
  bind_err (toISOString date) (fun s =>
  let iso := split0 84%N s in
  match date with
  | None => inl (RangeError (lit "Invalid time value"))
  | Some t =>
      let weekday := toLocaleDateString t WeekdayLong in
      let readable := toLocaleDateString t FullLong in
      let todayIdx := getDay tz t in
      bind_err (mapi_err (recentWeekday t todayIdx) 0 weekdays) (fun recentWeekdays =>
      inr (join (lit (String (ascii_of_nat 10) EmptyString))
             ([lit "[DATE CONTEXT]";
               lit "Today is " ++ readable ++ lit " (" ++ iso ++ lit ").";
               lit "Recent dates for reference:"]
              ++ map (fun s => lit "  " ++ s) recentWeekdays
              ++ [lit "[/DATE CONTEXT]"])))
  end).

End Host.

(** en-CA long formats as Node's ICU data prints them for years of the
    common era, e.g. [Wednesday, February 18, 2026]; used to run the
    builder on concrete instants. *)
Definition months : list jsstring :=
  [lit "January"; lit "February"; lit "March"; lit "April"; lit "May";
   lit "June"; lit "July"; lit "August"; lit "September"; lit "October";
   lit "November"; lit "December"].

Definition enCA (tz : TimeZone) (t : Z) (f : DateFormat) : jsstring :=
  let lt := LocalTime tz t in
  let wd := nth (Z.to_nat (WeekDay lt)) weekdays [] in
  match f with
  | WeekdayLong => wd
  | FullLong =>
      wd ++ lit ", " ++ nth (Z.to_nat (MonthFromTime lt)) months []
         ++ lit " " ++ decimal (DateFromTime lt)
         ++ lit ", " ++ decimal (YearFromTime lt)
  end.

(** ** What the specification asks of the weekday lines *)

(** The offset of the specification:
    [(today_weekday_index - target_weekday_index + 7) mod 7]. *)
Definition spec_offset (today idx : Z) : Z := (today - idx + 7) mod 7.

(** The line of weekday [idx]: its name and the date [spec_offset] days
    before the day of [t]. *)
Definition spec_weekday_line (t today : Z) (idx : nat) (name : jsstring) : jsstring :=
  name ++ lit ": " ++ iso_date_of_day (Day t - spec_offset today (Z.of_nat idx)).

(** The text in a date context, or nothing when the builder threw. *)
Definition context_includes (p : jsstring) (ctx : JsError + jsstring) : bool :=
  match ctx with
  | inr s => includes p s
  | inl _ => false
  end.

(** The reference instants of the examples. *)
Definition t_2026_02_18_noon : Z := 1771416000000.   (* 2026-02-18T12:00:00Z *)
Definition t_2026_02_19_0200 : Z := 1771466400000.   (* 2026-02-19T02:00:00Z *)

(** America/Toronto in winter (UTC-5) and Pacific/Auckland in summer
    (UTC+13). *)
Definition Toronto_EST : TimeZone := fixed_zone (-5 * 3600000).
Definition Auckland_NZDT : TimeZone := fixed_zone (13 * 3600000).

(** ** The builder in a zone of fixed offset *)

Lemma mapi_err_ok {A B} (f : nat -> A -> JsError + B) (g : nat -> A -> B) l :
  forall i,
  (forall j x, l !! j = Some x -> f (i + j)%nat x = inr (g (i + j)%nat x)) ->
  mapi_err f i l = inr (mapi g i l).
Proof.
  induction l as [|x l IH]; intros i H; [reflexivity|].
  simpl. pose proof (H 0%nat x eq_refl) as H0. rewrite Nat.add_0_r in H0.
  rewrite H0. simpl. rewrite (IH (S i)); [reflexivity|].
  intros j y Hj. replace (S i + j)%nat with (i + S j)%nat by lia.
  apply H. exact Hj.
Qed.

Lemma recentWeekday_fixed offset t today idx name :
  0 <= today <= 6 -> (idx <= 6)%nat ->
  - maxTime + 6 * msPerDay <= t <= maxTime ->
  recentWeekday (fixed_zone offset) t today idx name =
  inr (spec_weekday_line t today idx name).
Proof.
  intros Htoday Hidx Ht. unfold recentWeekday, spec_weekday_line, spec_offset.
  rewrite setDate_back. unfold UTC, LocalTime. cbn [fixed_zone tza_utc tza_local].
  rewrite Z.rem_mod_nonneg by lia.
  set (diff := (today - Z.of_nat idx + 7) mod 7).
  assert (Hdiff : 0 <= diff <= 6).
  { subst diff. pose proof (Z.mod_pos_bound (today - Z.of_nat idx + 7) 7). lia. }
  replace (t + offset - diff * msPerDay - offset) with (t + (- diff) * msPerDay) by lia.
  unfold TimeClip.
  replace (maxTime <? Z.abs (t + - diff * msPerDay)) with false.
  2:{ symmetry. apply Z.ltb_ge. unfold maxTime, msPerDay in *. lia. }
  destruct (toISOString_date (t + - diff * msPerDay)) as (s & Hs & Hsplit).
  rewrite Hs. cbn [bind_err]. rewrite Hsplit, Day_shift.
  replace (Day t + - diff) with (Day t - diff) by lia. reflexivity.
Qed.

(** X1. In a zone of fixed offset the builder shows, for each weekday name,
    the UTC date of the instant moved back by as many days as the local
    weekday of the instant is after that weekday. *)
Theorem formatDateContext_fixed_zone offset fmt t :
  - maxTime + 6 * msPerDay <= t <= maxTime ->
  formatDateContext (fixed_zone offset) fmt (Some t) =
  inr (join [10%N]
         ([lit "[DATE CONTEXT]";
           lit "Today is " ++ fmt t FullLong ++ lit " ("
             ++ iso_date_of_day (Day t) ++ lit ").";
           lit "Recent dates for reference:"]
          ++ map (fun s => lit "  " ++ s)
               (mapi (spec_weekday_line t (getDay (fixed_zone offset) t)) 0 weekdays)
          ++ [lit "[/DATE CONTEXT]"])).
Proof.
  intros Ht. unfold formatDateContext.
  destruct (toISOString_date t) as (s & Hs & Hsplit).
  rewrite Hs. cbn [bind_err]. rewrite Hsplit.
  rewrite (mapi_err_ok _ (spec_weekday_line t (getDay (fixed_zone offset) t))).
  - reflexivity.
  - intros j name Hj. apply recentWeekday_fixed.
    + unfold getDay, WeekDay.
      pose proof (Z.mod_pos_bound (Day (LocalTime (fixed_zone offset) t) + 4) 7).
      lia.
    + apply lookup_lt_Some in Hj. simpl in *. lia.
    + exact Ht.
Qed.

(** When the host runs in UTC the dates are the ones the specification
    asks for: the day shown for weekday [idx] falls on that weekday, is
    on or before the day of [t] and within 6 days of it, and is the day
    of [t] itself for the weekday of [t]. *)
Theorem spec_offset_utc t idx :
  0 <= idx <= 6 ->
  let shown := Day t - spec_offset (getDay UTC_zone t) idx in
  (shown + 4) mod 7 = idx
  /\ Day t - 6 <= shown <= Day t
  /\ (idx = WeekDay t -> shown = Day t).
Proof.
  intros Hidx shown. subst shown.
  unfold spec_offset, getDay, LocalTime, WeekDay. cbn [UTC_zone fixed_zone tza_utc].
  replace (t + 0) with t by lia.
  Z.div_mod_to_equations. lia.
Qed.

(** C4 (what the code does against it). The weekday comes from local
    time ([getDay], [setDate]) and the date from UTC ([toISOString]). In
    UTC the context for 2026-02-18T12:00Z has the lines of the claim. At
    the same instant in a zone thirteen hours ahead it has neither,
    showing the Monday and the Wednesday lines one day early; and on a
    host five hours behind UTC, at 21:00 local time on Wednesday
    2026-02-18, it says that today is Wednesday, February 18 and
    2026-02-19 at once, and labels 2026-02-19, a Thursday, as the most
    recent Wednesday. *)
Theorem formatDateContext_zone_mismatch :
  let utc := formatDateContext UTC_zone (enCA UTC_zone) (Some t_2026_02_18_noon) in
  let nz := formatDateContext Auckland_NZDT (enCA Auckland_NZDT) (Some t_2026_02_18_noon) in
  let ca := formatDateContext Toronto_EST (enCA Toronto_EST) (Some t_2026_02_19_0200) in
  (context_includes (lit "Monday: 2026-02-16") utc = true
   /\ context_includes (lit "Wednesday: 2026-02-18") utc = true)
  /\ (context_includes (lit "Monday: 2026-02-16") nz = false
      /\ context_includes (lit "Wednesday: 2026-02-18") nz = false
      /\ context_includes (lit "Monday: 2026-02-15") nz = true
      /\ context_includes (lit "Wednesday: 2026-02-17") nz = true)
  /\ (context_includes
        (lit "Today is Wednesday, February 18, 2026 (2026-02-19).") ca = true
      /\ context_includes (lit "Wednesday: 2026-02-19") ca = true
      /\ WeekDay t_2026_02_19_0200 = 4
      /\ context_includes (lit "Thursday: 2026-02-19") ca = false).
Proof. vm_compute. repeat split; reflexivity. Qed.

(** ** When the builder throws *)

Definition invalid_time : JsError := RangeError (lit "Invalid time value").

(** A callback that throws [e] at some position, and throws nothing else
    anywhere, makes the map throw [e]. *)
Lemma mapi_err_throws {A B} (f : nat -> A -> JsError + B) e l :
  forall i,
  (forall j x, l !! j = Some x ->
     (exists y, f (i + j)%nat x = inr y) \/ f (i + j)%nat x = inl e) ->
  (exists j x, l !! j = Some x /\ f (i + j)%nat x = inl e) ->
  mapi_err f i l = inl e.
Proof.
  induction l as [|x l IH]; intros i Hall (j & y & Hj & Hf); [discriminate|].
  simpl. destruct (Hall 0%nat x eq_refl) as [[v Hv]|Hv];
    rewrite Nat.add_0_r in Hv; rewrite Hv; [|reflexivity].
  simpl. rewrite (IH (S i)); [reflexivity| |].
  - intros k z Hk. replace (S i + k)%nat with (i + S k)%nat by lia.
    apply Hall. exact Hk.
  - destruct j as [|j].
    + simpl in Hj. injection Hj as <-. rewrite Nat.add_0_r in Hf. congruence.
    + exists j, y. split; [exact Hj|].
      replace (S i + j)%nat with (i + S j)%nat by lia. exact Hf.
Qed.

(** One weekday line in a zone of fixed offset, for a valid time value:
    it throws exactly when the shifted instant leaves the range of
    [Date]. *)
Lemma recentWeekday_fixed_cases offset t today idx name :
  0 <= today <= 6 -> (idx <= 6)%nat -> - maxTime <= t <= maxTime ->
  recentWeekday (fixed_zone offset) t today idx name =
  if - maxTime <=? t - spec_offset today (Z.of_nat idx) * msPerDay
  then inr (spec_weekday_line t today idx name)
  else inl invalid_time.
Proof.
  intros Htoday Hidx Ht. unfold recentWeekday, spec_weekday_line, spec_offset.
  rewrite setDate_back. unfold UTC, LocalTime. cbn [fixed_zone tza_utc tza_local].
  rewrite Z.rem_mod_nonneg by lia.
  set (diff := (today - Z.of_nat idx + 7) mod 7).
  assert (Hdiff : 0 <= diff <= 6).
  { subst diff. pose proof (Z.mod_pos_bound (today - Z.of_nat idx + 7) 7). lia. }
  replace (t + offset - diff * msPerDay - offset) with (t + (- diff) * msPerDay) by lia.
  replace (t - diff * msPerDay) with (t + (- diff) * msPerDay) by lia.
  unfold TimeClip.
  destruct (- maxTime <=? t + - diff * msPerDay) eqn:Hlo.
  - apply Z.leb_le in Hlo.
    replace (maxTime <? Z.abs (t + - diff * msPerDay)) with false.
    2:{ symmetry. apply Z.ltb_ge. unfold maxTime, msPerDay in *. lia. }
    destruct (toISOString_date (t + - diff * msPerDay)) as (s & Hs & Hsplit).
    rewrite Hs. cbn [bind_err]. rewrite Hsplit, Day_shift.
    replace (Day t + - diff) with (Day t - diff) by lia. reflexivity.
  - apply Z.leb_gt in Hlo.
    replace (maxTime <? Z.abs (t + - diff * msPerDay)) with true.
    2:{ symmetry. apply Z.ltb_lt. unfold maxTime, msPerDay in *. lia. }
    reflexivity.
Qed.

(** X2. On a host of fixed UTC offset and for a valid time value, the builder
    returns exactly when the instant is at least six days after the
    earliest [Date]; before that it throws the [RangeError] of
    [toISOString], because one of the weekday lines lies six days back.
    An invalid [Date] throws the same error. *)
Theorem formatDateContext_throws_near_minimum offset fmt t :
  - maxTime <= t <= maxTime ->
  (t < - maxTime + 6 * msPerDay ->
     formatDateContext (fixed_zone offset) fmt (Some t) = inl invalid_time)
  /\ (- maxTime + 6 * msPerDay <= t ->
        exists s, formatDateContext (fixed_zone offset) fmt (Some t) = inr s)
  /\ formatDateContext (fixed_zone offset) fmt None = inl invalid_time.
Proof.
  intros Ht. split; [|split; [|reflexivity]].
  - intros Hlow. unfold formatDateContext.
    destruct (toISOString_date t) as (s & Hs & Hsplit).
    rewrite Hs. cbn [bind_err].
    set (today := getDay (fixed_zone offset) t).
    assert (Htoday : 0 <= today <= 6).
    { subst today. unfold getDay, WeekDay.
      pose proof (Z.mod_pos_bound (Day (LocalTime (fixed_zone offset) t) + 4) 7). lia. }
    rewrite (mapi_err_throws _ invalid_time); [reflexivity| |].
    + intros j name Hj. apply lookup_lt_Some in Hj. simpl in Hj.
      rewrite recentWeekday_fixed_cases by (simpl; lia).
      destruct (_ <=? _); eauto.
    + exists (Z.to_nat ((today + 1) mod 7)).
      assert (Hidx : 0 <= (today + 1) mod 7 <= 6).
      { pose proof (Z.mod_pos_bound (today + 1) 7). lia. }
      destruct (weekdays !! Z.to_nat ((today + 1) mod 7)) as [name|] eqn:Hname.
      2:{ apply lookup_ge_None in Hname. simpl in Hname. lia. }
      exists name. split; [reflexivity|].
      rewrite recentWeekday_fixed_cases by (simpl; lia).
      replace (- maxTime <=? _) with false; [reflexivity|].
      symmetry. apply Z.leb_gt. simpl. rewrite Z2Nat.id by lia.
      assert (spec_offset today ((today + 1) mod 7) = 6).
      { unfold spec_offset. Z.div_mod_to_equations. lia. }
      unfold maxTime, msPerDay in *. lia.
  - intros Hok. unfold formatDateContext.
    destruct (toISOString_date t) as (s & Hs & Hsplit).
    rewrite Hs. cbn [bind_err].
    rewrite (mapi_err_ok _ (spec_weekday_line t (getDay (fixed_zone offset) t))).
    + eexists. reflexivity.
    + intros j name Hj. apply recentWeekday_fixed.
      * unfold getDay, WeekDay.
        pose proof (Z.mod_pos_bound (Day (LocalTime (fixed_zone offset) t) + 4) 7).
        lia.
      * apply lookup_lt_Some in Hj. simpl in *. lia.
      * lia.
Qed.

(** ** The shape of the context *)

(** The context built from the readable date, the ISO date and the days
    shown for Sunday..Saturday. *)
Definition context_text (readable iso : jsstring) (days : list Z) : jsstring :=
  join [10%N]
    ([lit "[DATE CONTEXT]";
      lit "Today is " ++ readable ++ lit " (" ++ iso ++ lit ").";
      lit "Recent dates for reference:"]
     ++ map (fun s => lit "  " ++ s)
          (zip_with (fun name day => name ++ lit ": " ++ iso_date_of_day day)
             weekdays days)
     ++ [lit "[/DATE CONTEXT]"]).

Lemma mapi_err_inr {A B} (f : nat -> A -> JsError + B) (P : A -> B -> Prop) l :
  (forall i x y, f i x = inr y -> P x y) ->
  forall i ys, mapi_err f i l = inr ys -> Forall2 P l ys.
Proof.
  intros HP. induction l as [|x l IH]; intros i ys H.
  - injection H as <-. constructor.
  - cbn [mapi_err] in H.
    destruct (f i x) as [e|y] eqn:Hy; [discriminate|].
    destruct (mapi_err f (S i) l) as [e|rest] eqn:Hrest; [discriminate|].
    injection H as <-. constructor; [exact (HP _ _ _ Hy)|exact (IH _ _ Hrest)].
Qed.

Lemma Forall2_zip_with {A B C} (g : A -> C -> B) l ys :
  Forall2 (fun x y => exists c, y = g x c) l ys ->
  exists cs, length cs = length l /\ ys = zip_with g l cs.
Proof.
  induction 1 as [|x y l ys [c ->] _ (cs & Hlen & ->)].
  - exists []. split; reflexivity.
  - exists (c :: cs). cbn [length zip_with]. rewrite Hlen. split; reflexivity.
Qed.

Lemma recentWeekday_inr tz t today idx name line :
  recentWeekday tz t today idx name = inr line ->
  exists day, line = name ++ lit ": " ++ iso_date_of_day day.
Proof.
  unfold recentWeekday.
  destruct (setDate tz t _) as [t'|].
  - destruct (toISOString_date t') as (s & Hs & Hsplit).
    rewrite Hs. cbn [bind_err]. rewrite Hsplit.
    intros H. injection H as <-. eauto.
  - intros H. discriminate H.
Qed.

Lemma mapi_err_recentWeekday tz t today l i lines :
  mapi_err (recentWeekday tz t today) i l = inr lines ->
  exists days,
    length days = length l
    /\ lines = zip_with (fun name day => name ++ lit ": " ++ iso_date_of_day day) l days.
Proof.
  intros H. apply Forall2_zip_with.
  eapply mapi_err_inr; [|exact H].
  intros k name line. apply recentWeekday_inr.
Qed.

(** X3. Whatever the host's time zone and locale formatting, a context the
    builder returns is made of eleven parts joined by newlines: the
    opening marker, the Today line with the UTC date of the instant, the
    heading, seven lines labelled Sunday to Saturday in this order, each
    with a calendar date, and the closing marker. *)
Theorem formatDateContext_shape tz fmt date s :
  formatDateContext tz fmt date = inr s ->
  exists t days,
    date = Some t
    /\ length days = 7%nat
    /\ s = context_text (fmt t FullLong) (iso_date_of_day (Day t)) days.
Proof.
  destruct date as [t|]; [|discriminate].
  unfold formatDateContext.
  destruct (toISOString_date t) as (s0 & Hs & Hsplit).
  rewrite Hs. cbn [bind_err]. rewrite Hsplit.
  destruct (mapi_err _ 0 weekdays) as [e|lines] eqn:Hl; [discriminate|].
  cbn [bind_err]. intros H. injection H as <-.
  destruct (mapi_err_recentWeekday _ _ _ _ _ _ Hl) as (days & Hlen & ->).
  exists t, days. split; [reflexivity|]. split; [exact Hlen|reflexivity].
Qed.

(** ** The most recent occurrence of a weekday *)

(** The latest day on or before [day] that falls on weekday [idx]. *)
Definition most_recent (day idx : Z) : Z := day - (day + 4 - idx) mod 7.

Lemma most_recent_spec day idx :
  0 <= idx <= 6 ->
  (most_recent day idx + 4) mod 7 = idx
  /\ most_recent day idx <= day
  /\ forall d, d <= day -> (d + 4) mod 7 = idx -> d <= most_recent day idx.
Proof.
  intros Hidx. unfold most_recent. repeat split.
  - Z.div_mod_to_equations. lia.
  - Z.div_mod_to_equations. lia.
  - intros d Hd Hw. Z.div_mod_to_equations. lia.
Qed.

Lemma mapi_lookup {A B} (g : nat -> A -> B) l :
  forall i j, mapi g i l !! j = g (i + j)%nat <$> l !! j.
Proof.
  induction l as [|x l IH]; intros i j; [reflexivity|].
  destruct j as [|j]; simpl.
  - rewrite Nat.add_0_r. reflexivity.
  - rewrite IH. replace (S i + j)%nat with (i + S j)%nat by lia. reflexivity.
Qed.

Lemma spec_weekday_line_utc t idx name :
  (idx <= 6)%nat ->
  spec_weekday_line t (WeekDay t) idx name =
  name ++ lit ": " ++ iso_date_of_day (most_recent (Day t) (Z.of_nat idx)).
Proof.
  intros Hidx. unfold spec_weekday_line. do 3 f_equal.
  unfold spec_offset, most_recent, WeekDay.
  Z.div_mod_to_equations. lia.
Qed.

Lemma getDay_utc t : getDay UTC_zone t = WeekDay t.
Proof.
  unfold getDay, LocalTime. cbn [UTC_zone fixed_zone tza_utc].
  f_equal. lia.
Qed.

(** X4. On a host that runs in UTC, for an instant at least six days after
    the earliest [Date], the line of each weekday shows the most recent
    day, on or before the day of the instant, that falls on that
    weekday; the weekday of the instant itself shows the day of the
    instant. *)
Theorem formatDateContext_utc_most_recent fmt t :
  - maxTime + 6 * msPerDay <= t <= maxTime ->
  formatDateContext UTC_zone fmt (Some t) =
    inr (context_text (fmt t FullLong) (iso_date_of_day (Day t))
           (map (fun idx => most_recent (Day t) (Z.of_nat idx)) (seq 0 7)))
  /\ most_recent (Day t) (WeekDay t) = Day t
  /\ forall idx, 0 <= idx <= 6 ->
       (most_recent (Day t) idx + 4) mod 7 = idx
       /\ Day t - 6 <= most_recent (Day t) idx <= Day t
       /\ forall d, d <= Day t -> (d + 4) mod 7 = idx -> d <= most_recent (Day t) idx.
Proof.
  intros Ht. split; [|split].
  - unfold formatDateContext.
    destruct (toISOString_date t) as (s & Hs & Hsplit).
    rewrite Hs. cbn [bind_err]. rewrite Hsplit.
    rewrite (mapi_err_ok _ (spec_weekday_line t (getDay UTC_zone t))).
    + cbn [bind_err]. unfold context_text. do 3 f_equal.
      rewrite getDay_utc. unfold weekdays.
      cbn [mapi zip_with map seq].
      rewrite !spec_weekday_line_utc by lia. reflexivity.
    + intros j name Hj. apply recentWeekday_fixed.
      * rewrite getDay_utc. unfold WeekDay.
        pose proof (Z.mod_pos_bound (Day t + 4) 7). lia.
      * apply lookup_lt_Some in Hj. unfold weekdays in Hj. cbn [length] in Hj. lia.
      * exact Ht.
  - unfold most_recent, WeekDay. Z.div_mod_to_equations. lia.
  - intros idx Hidx. destruct (most_recent_spec (Day t) idx Hidx) as (H1 & H2 & H3).
    split; [exact H1|]. split; [|exact H3].
    split; [|exact H2]. unfold most_recent. Z.div_mod_to_equations. lia.
Qed.

(** ** Instances *)

(** Noon UTC on 2026-02-18, on a host five hours behind UTC. *)
Lemma formatDateContext_fixed_zone_witness :
  (- maxTime + 6 * msPerDay <= t_2026_02_18_noon <= maxTime)
  /\ formatDateContext Toronto_EST (enCA Toronto_EST) (Some t_2026_02_18_noon) =
     inr (join [10%N]
            ([lit "[DATE CONTEXT]";
              lit "Today is " ++ enCA Toronto_EST t_2026_02_18_noon FullLong ++ lit " ("
                ++ iso_date_of_day (Day t_2026_02_18_noon) ++ lit ").";
              lit "Recent dates for reference:"]
             ++ map (fun s => lit "  " ++ s)
                  (mapi (spec_weekday_line t_2026_02_18_noon
                           (getDay Toronto_EST t_2026_02_18_noon)) 0 weekdays)
             ++ [lit "[/DATE CONTEXT]"])).
Proof.
  assert (H : - maxTime + 6 * msPerDay <= t_2026_02_18_noon <= maxTime)
    by (unfold maxTime, msPerDay, t_2026_02_18_noon; lia).
  split; [exact H|].
  exact (formatDateContext_fixed_zone (-5 * 3600000) (enCA Toronto_EST)
           t_2026_02_18_noon H).
Defined.

(** One day after the earliest [Date]: a valid instant for which the
    builder throws. *)
Lemma formatDateContext_throws_near_minimum_witness :
  (- maxTime <= - maxTime + msPerDay <= maxTime)
  /\ formatDateContext UTC_zone (enCA UTC_zone) (Some (- maxTime + msPerDay))
     = inl invalid_time.
Proof.
  assert (H : - maxTime <= - maxTime + msPerDay <= maxTime)
    by (unfold maxTime, msPerDay; lia).
  split; [exact H|].
  apply (proj1 (formatDateContext_throws_near_minimum 0 (enCA UTC_zone)
                  (- maxTime + msPerDay) H)).
  unfold maxTime, msPerDay. lia.
Defined.

(** The context of noon UTC on 2026-02-18 on a host thirteen hours ahead
    of UTC. *)
Definition auckland_context : jsstring :=
  match formatDateContext Auckland_NZDT (enCA Auckland_NZDT) (Some t_2026_02_18_noon) with
  | inr s => s
  | inl _ => []
  end.

Lemma formatDateContext_shape_witness :
  formatDateContext Auckland_NZDT (enCA Auckland_NZDT) (Some t_2026_02_18_noon)
    = inr auckland_context
  /\ exists t days,
       Some t_2026_02_18_noon = Some t
       /\ length days = 7%nat
       /\ auckland_context =
            context_text (enCA Auckland_NZDT t FullLong) (iso_date_of_day (Day t)) days.
Proof.
  assert (H : formatDateContext Auckland_NZDT (enCA Auckland_NZDT)
                (Some t_2026_02_18_noon) = inr auckland_context)
    by (vm_compute; reflexivity).
  split; [exact H|].
  exact (formatDateContext_shape Auckland_NZDT (enCA Auckland_NZDT)
           (Some t_2026_02_18_noon) auckland_context H).
Defined.

(** Noon UTC on 2026-02-18, a Wednesday, on a host in UTC. *)
Lemma formatDateContext_utc_most_recent_witness :
  (- maxTime + 6 * msPerDay <= t_2026_02_18_noon <= maxTime)
  /\ formatDateContext UTC_zone (enCA UTC_zone) (Some t_2026_02_18_noon) =
       inr (context_text (enCA UTC_zone t_2026_02_18_noon FullLong)
              (iso_date_of_day (Day t_2026_02_18_noon))
              (map (fun idx => most_recent (Day t_2026_02_18_noon) (Z.of_nat idx))
                 (seq 0 7)))
  /\ most_recent (Day t_2026_02_18_noon) (WeekDay t_2026_02_18_noon)
     = Day t_2026_02_18_noon.
Proof.
  assert (H : - maxTime + 6 * msPerDay <= t_2026_02_18_noon <= maxTime)
    by (unfold maxTime, msPerDay, t_2026_02_18_noon; lia).
  split; [exact H|].
  destruct (formatDateContext_utc_most_recent (enCA UTC_zone) t_2026_02_18_noon H)
    as (H1 & H2 & _).
  split; [exact H1|exact H2].
Defined.

End DateContext.
Import DateContext.

(* ===================================================================== *)
(** * Computations that read and write a state and may throw *)
(* ===================================================================== *)

Inductive Outcome (A : Type) :=
| Return (a : A)
| Throw (e : JsError).
Arguments Return {A} a.
Arguments Throw {A} e.

Definition M (S A : Type) : Type := S -> Outcome A * S.

Definition ret {S A} (a : A) : M S A := fun s => (Return a, s).
Definition throw {S A} (e : JsError) : M S A := fun s => (Throw e, s).
Definition bind {S A B} (c : M S A) (k : A -> M S B) : M S B :=
  fun s =>
    match c s with
    | (Return a, s') => k a s'
    | (Throw e, s') => (Throw e, s')
    end.
Definition gets {S A} (f : S -> A) : M S A := fun s => (Return (f s), s).
Definition modify {S} (f : S -> S) : M S unit := fun s => (Return tt, f s).

(** Run a computation on the second component of a larger state. *)
Definition lift {F S A} (c : M S A) : M (F * S) A :=
  fun fs => let '(o, s') := c (snd fs) in (o, (fst fs, s')).

Declare Scope js_scope.
Delimit Scope js_scope with js.
Notation "x <- c ;; k" := (bind c (fun x => k))
  (at level 100, c at next level, right associativity) : js_scope.
Notation "c ;; k" := (bind c (fun _ => k))
  (at level 100, right associativity) : js_scope.

(* ===================================================================== *)
(** * agent.js: the agent *)
(* ===================================================================== *)

Module Agent.

(** Maximum number of agentic tool-call turns per request. *)
Definition MAX_TURNS : nat := 10.

Section Model.
Local Open Scope js_scope.

(** Structured values (tool inputs and results, schemas) and their
    serialisation by [JSON.stringify]. *)
Variable Json : Type.
Variable JSON_stringify : Json -> jsstring.

(** The fixed system instruction. *)
Variable SYSTEM_PROMPT : jsstring.

(** The host of the date context builder. *)
Variable tz : TimeZone.
Variable toLocaleDateString : Z -> DateFormat -> jsstring.

(** ** Data *)

(** An entry of [this.tools]. *)
Record Tool := mkTool {
  tool_name : jsstring;
  tool_description : jsstring;
  tool_input_schema : Json }.

(** A tool as [listTools] of the peer describes it. *)
Record McpTool := mkMcpTool {
  mcp_name : jsstring;
  mcp_description : jsstring;
  mcp_inputSchema : Json }.

(** A [tool_use] content block. *)
Record ToolUse := mkToolUse {
  tu_id : jsstring;
  tu_name : jsstring;
  tu_input : Json }.

Inductive ContentBlock :=
| TextBlock (text : jsstring)          (* type: 'text' *)
| ToolUseBlock (u : ToolUse)           (* type: 'tool_use' *)
| OtherBlock (type : jsstring).        (* any other type *)

(** A response of the decision service. *)
Record Response := mkResponse {
  stop_reason : jsstring;
  content : list ContentBlock }.

Record ToolResult := mkToolResult {
  tool_use_id : jsstring;
  tr_content : jsstring }.

Inductive Role := user | assistant.

Inductive MessageContent :=
| Text (s : jsstring)
| Blocks (bs : list ContentBlock)
| ToolResults (rs : list ToolResult).

Record Message := mkMessage {
  role : Role;
  msg_content : MessageContent }.

(** The argument of [anthropic.messages.create]. *)
Record Request := mkRequest {
  model : jsstring;
  max_tokens : Z;
  system : jsstring;
  req_tools : list Tool;
  req_messages : list Message }.

(** An entry of the action log. *)
Record Action := mkAction {
  tool : jsstring;
  input : Json;
  result : Json }.

(** What [process] resolves to. *)
Record ProcessResult := mkResult {
  response : jsstring;
  actions : list Action }.

(** The MCP [Client] object and the stdio transport parameters. *)
Record Client := mkClient {
  client_name : jsstring;
  client_version : jsstring }.

Record Transport := mkTransport {
  command : jsstring;
  args : list jsstring;
  cwd : jsstring;
  env : gmap jsstring (option jsstring) }.

(** The fields of a [LifeRhythmAgent]. *)
Record AgentObj := mkAgent {
  mcpServerPath : jsstring;
  sheetId : jsstring;
  mcpClient : option Client;
  tools : list Tool }.

(** [new LifeRhythmAgent({ mcpServerPath, sheetId })] *)
Definition constructor (path sheet : jsstring) : AgentObj :=
  mkAgent path sheet None [].

(** ** The outside world *)

(** One call to the decision service and what it gave. *)
Definition SvcEvent : Type := Request * (JsError + Response).

(** One call to the MCP peer and what it gave. *)
Inductive PeerEvent :=
| EvConnect (c : Client) (t : Transport) (r : JsError + unit)
| EvListTools (r : JsError + list McpTool)
| EvCallTool (name : jsstring) (arguments : Json) (r : JsError + Json)
| EvClose (r : JsError + unit).

(** The decision service and the peer answer as a function of what they
    were asked before. *)
Variable anthropic_create : list SvcEvent -> Request -> JsError + Response.
Variable mcp_connect : list PeerEvent -> Client -> Transport -> JsError + unit.
Variable mcp_listTools : list PeerEvent -> JsError + list McpTool.
Variable mcp_callTool : list PeerEvent -> jsstring -> Json -> JsError + Json.
Variable mcp_close : list PeerEvent -> JsError + unit.

(** The ambient environment [process.env] and the calls made so far, in
    the order they were made. *)
Record World := mkWorld {
  process_env : gmap jsstring jsstring;
  svc_log : list SvcEvent;
  peer_log : list PeerEvent }.

(** An agent in its world. *)
Record Machine := mkMachine {
  this : AgentObj;
  world : World }.

(** The locals of one [process] call. *)
Record Frame := mkFrame {
  messages : list Message;
  frame_actions : list Action;
  turns : nat }.

Definition set_mcpClient (c : option Client) (m : Machine) : Machine :=
  let a := this m in
  mkMachine (mkAgent (mcpServerPath a) (sheetId a) c (tools a)) (world m).

Definition set_tools (ts : list Tool) (m : Machine) : Machine :=
  let a := this m in
  mkMachine (mkAgent (mcpServerPath a) (sheetId a) (mcpClient a) ts) (world m).

Definition log_svc (ev : SvcEvent) (m : Machine) : Machine :=
  let w := world m in
  mkMachine (this m) (mkWorld (process_env w) (svc_log w ++ [ev]) (peer_log w)).

Definition log_peer (ev : PeerEvent) (m : Machine) : Machine :=
  let w := world m in
  mkMachine (this m) (mkWorld (process_env w) (svc_log w) (peer_log w ++ [ev])).

Definition settle {S A} (r : JsError + A) : M S A :=
  match r with
  | inl e => throw e
  | inr a => ret a
  end.

(** [await this.anthropic.messages.create(req)] *)
Definition await_create (req : Request) : M Machine Response :=
  fun m =>
    let r := anthropic_create (svc_log (world m)) req in
    settle r (log_svc (req, r) m).

(** [await this.mcpClient.connect(transport)] and the other calls to the
    peer. *)
Definition await_connect (c : Client) (t : Transport) : M Machine unit :=
  fun m =>
    let r := mcp_connect (peer_log (world m)) c t in
    settle r (log_peer (EvConnect c t r) m).

Definition await_listTools : M Machine (list McpTool) :=
  fun m =>
    let r := mcp_listTools (peer_log (world m)) in
    settle r (log_peer (EvListTools r) m).

Definition await_callTool (name : jsstring) (arguments : Json) : M Machine Json :=
  fun m =>
    let r := mcp_callTool (peer_log (world m)) name arguments in
    settle r (log_peer (EvCallTool name arguments r) m).

Definition await_close : M Machine unit :=
  fun m =>
    let r := mcp_close (peer_log (world m)) in
    settle r (log_peer (EvClose r) m).

(** ** connect *)

(** [a || b] on an environment value. *)
Definition or_else (a : option jsstring) (b : jsstring) : jsstring :=
  match a with
  | Some (c :: s) => c :: s
  | _ => b
  end.

(** The object literal [mcpEnv] of [connect], before undefined values
    are stripped. *)
Definition mcpEnv_literal (penv : gmap jsstring jsstring) (sheet : jsstring)
  : gmap jsstring (option jsstring) :=
  <[lit "GOOGLE_PRIVATE_KEY" := penv !! lit "GOOGLE_PRIVATE_KEY"]>
  (<[lit "GOOGLE_SERVICE_ACCOUNT_EMAIL" := penv !! lit "GOOGLE_SERVICE_ACCOUNT_EMAIL"]>
  (<[lit "GOOGLE_APPLICATION_CREDENTIALS" := penv !! lit "GOOGLE_APPLICATION_CREDENTIALS"]>
  (<[lit "LIFERHYTHM_SHEET_ID" := Some sheet]>
  (<[lit "NODE_ENV" := Some (or_else (penv !! lit "NODE_ENV") (lit "production"))]>
  (<[lit "HOME" := penv !! lit "HOME"]>
  (<[lit "PATH" := penv !! lit "PATH"]> ∅)))))).

(** [Object.keys(o).forEach(k => o[k] === undefined && delete o[k])],
    over the keys [ks] of [o]. *)
Definition strip_keys (ks : list jsstring) (o : gmap jsstring (option jsstring))
  : gmap jsstring (option jsstring) :=
  fold_left (fun o k => match o !! k with
                        | Some None => delete k o
                        | _ => o
                        end) ks o.

Definition strip_undefined (o : gmap jsstring (option jsstring))
  : gmap jsstring (option jsstring) :=
  strip_keys (map fst (map_to_list o)) o.

Definition mcpEnv (penv : gmap jsstring jsstring) (sheet : jsstring)
  : gmap jsstring (option jsstring) :=
  strip_undefined (mcpEnv_literal penv sheet).

(** The keys [connect] may pass to the child, and those of them it
    copies from the ambient environment as they are. *)
Definition allow_list : list jsstring :=
  [lit "PATH"; lit "HOME"; lit "NODE_ENV"; lit "LIFERHYTHM_SHEET_ID";
   lit "GOOGLE_APPLICATION_CREDENTIALS"; lit "GOOGLE_SERVICE_ACCOUNT_EMAIL";
   lit "GOOGLE_PRIVATE_KEY"].

Definition copied_keys : list jsstring :=
  [lit "PATH"; lit "HOME";
   lit "GOOGLE_APPLICATION_CREDENTIALS"; lit "GOOGLE_SERVICE_ACCOUNT_EMAIL";
   lit "GOOGLE_PRIVATE_KEY"].

(** The client object [connect] creates. *)
Definition new_client : Client := mkClient (lit "liferhythm-agent") (lit "1.0.0").

Definition connect : M Machine (list Tool) :=
  let client := new_client in
  modify (set_mcpClient (Some client)) ;;
  penv <- gets (fun m => process_env (world m)) ;;
  a <- gets this ;;
  let transport :=
    mkTransport (lit "node") [lit "index.js"] (mcpServerPath a)
                (mcpEnv penv (sheetId a)) in
  await_connect client transport ;;
  listed <- await_listTools ;;
  modify (set_tools
    (map (fun t => mkTool (mcp_name t) (mcp_description t) (mcp_inputSchema t))
         listed)) ;;
  gets (fun m => tools (this m)).

(** ** disconnect *)

Definition disconnect : M Machine unit :=
  c <- gets (fun m => mcpClient (this m)) ;;
  match c with
  | Some _ =>
      await_close ;;
      modify (set_mcpClient None)
  | None => ret tt
  end.

(** ** _callTool *)

Definition NotConnected : JsError :=
  Error (lit "Not connected to MCP server. Call connect() first.").

Definition _callTool (toolName : jsstring) (toolInput : Json) : M Machine Json :=
  c <- gets (fun m => mcpClient (this m)) ;;
  match c with
  | None => throw NotConnected
  | Some _ =>
      result <- await_callTool toolName toolInput ;;
      ret result
  end.

(** ** process *)

Definition MaxTurnsExceeded : JsError :=
  Error (lit "Agent exceeded maximum turns (" ++ decimal (Z.of_nat MAX_TURNS)
         ++ lit "). Aborting to prevent runaway tool calls.").

Definition is_text (b : ContentBlock) : bool :=
  match b with TextBlock _ => true | _ => false end.

Definition block_text (b : ContentBlock) : jsstring :=
  match b with TextBlock t => t | _ => [] end.

(** [response.content.filter(b => b.type === 'tool_use')] *)
Fixpoint toolUseBlocks (bs : list ContentBlock) : list ToolUse :=
  match bs with
  | [] => []
  | ToolUseBlock u :: bs' => u :: toolUseBlocks bs'
  | _ :: bs' => toolUseBlocks bs'
  end.

(** The guard [stop_reason === 'end_turn' || toolUseBlocks.length === 0]. *)
Definition is_final (r : Response) : bool :=
  bool_decide (stop_reason r = lit "end_turn")
  || (length (toolUseBlocks (content r)) =? 0)%nat.

(** [textBlocks.map(b => b.text)]: the text segments, in their order. *)
Definition texts (bs : list ContentBlock) : list jsstring :=
  map block_text (filter is_text bs).

Definition finalText (r : Response) : jsstring :=
  trim (join [] (texts (content r))).

Definition push_message (msg : Message) (fr : Frame) : Frame :=
  mkFrame (messages fr ++ [msg]) (frame_actions fr) (turns fr).

Definition push_action (a : Action) (fr : Frame) : Frame :=
  mkFrame (messages fr) (frame_actions fr ++ [a]) (turns fr).

Definition incr_turns (fr : Frame) : Frame :=
  mkFrame (messages fr) (frame_actions fr) (S (turns fr)).

Definition on_frame (f : Frame -> Frame) : M (Frame * Machine) unit :=
  modify (fun fm => (f (fst fm), snd fm)).

(** The [for (const toolUse of toolUseBlocks)] loop; [toolResults] is the
    array built so far. *)
Fixpoint call_tools (blocks : list ToolUse) (toolResults : list ToolResult)
  : M (Frame * Machine) (list ToolResult) :=
  match blocks with
  | [] => ret toolResults
  | toolUse :: rest =>
      result <- lift (_callTool (tu_name toolUse) (tu_input toolUse)) ;;
      on_frame (push_action (mkAction (tu_name toolUse) (tu_input toolUse) result)) ;;
      call_tools rest
        (toolResults ++ [mkToolResult (tu_id toolUse) (JSON_stringify result)])
  end.

(** The [while (turns < MAX_TURNS)] loop, with [remaining] the number of
    turns left, [MAX_TURNS - turns]. *)
Fixpoint agentic_loop (remaining : nat) : M (Frame * Machine) ProcessResult :=
  match remaining with
  | O => throw MaxTurnsExceeded
  | S remaining' =>
      on_frame incr_turns ;;
      ts <- gets (fun fm => tools (this (snd fm))) ;;
      msgs <- gets (fun fm => messages (fst fm)) ;;
      response <- lift (await_create
        (mkRequest (lit "claude-opus-4-6") 4096 SYSTEM_PROMPT ts msgs)) ;;
      if is_final response then
        acts <- gets (fun fm => frame_actions (fst fm)) ;;
        ret (mkResult (finalText response) acts)
      else
        on_frame (push_message (mkMessage assistant (Blocks (content response)))) ;;
        toolResults <- call_tools (toolUseBlocks (content response)) [] ;;
        on_frame (push_message (mkMessage user (ToolResults toolResults))) ;;
        agentic_loop remaining'
  end.

Definition initial_frame (userMessage : jsstring) : Frame :=
  mkFrame [mkMessage user (Text userMessage)] [] 0.

(** [`${dateContext}\n\n${input}`] *)
Definition userMessage (dateContext input : jsstring) : jsstring :=
  dateContext ++ [10; 10]%N ++ input.

(** The request the loop sends next. *)
Definition next_request (fr : Frame) (m : Machine) : Request :=
  mkRequest (lit "claude-opus-4-6") 4096 SYSTEM_PROMPT (tools (this m)) (messages fr).

(** The body of [process], with the locals it ends with ([None] when the
    date context could not be built and the locals were never created). *)
Definition process_run (input : jsstring) (now : option Z) (m : Machine)
  : Outcome ProcessResult * (option Frame * Machine) :=
  match formatDateContext tz toLocaleDateString now with
  | inl e => (Throw e, (None, m))
  | inr dateContext =>
      let '(o, (fr, m')) :=
        agentic_loop MAX_TURNS (initial_frame (userMessage dateContext input), m) in
      (o, (Some fr, m'))
  end.

(** [process(input, now)]: the locals are gone when it settles. *)
Definition process (input : jsstring) (now : option Z) : M Machine ProcessResult :=
  fun m => let '(o, (_, m')) := process_run input now m in (o, m').

(** ** Runs of the loop, as traces

    A run of [agentic_loop] is a sequence of completed rounds (a response
    that is not final, and every tool call of it answered) and an
    ending. *)

(** A tool invocation that resolved, with its result. *)
Definition Call : Type := ToolUse * Json.

Definition call_event (c : Call) : PeerEvent :=
  EvCallTool (tu_name (fst c)) (tu_input (fst c)) (inr (snd c)).
Definition call_action (c : Call) : Action :=
  mkAction (tu_name (fst c)) (tu_input (fst c)) (snd c).
Definition call_result (c : Call) : ToolResult :=
  mkToolResult (tu_id (fst c)) (JSON_stringify (snd c)).

Record Round := mkRound {
  rd_request : Request;
  rd_response : Response;
  rd_calls : list Call }.

Inductive Ending :=
| Final (req : Request) (resp : Response)
| OutOfTurns
| ServiceFailed (req : Request) (e : JsError)
| ToolFailed (req : Request) (resp : Response) (calls : list Call)
             (u : ToolUse) (cause : option JsError).

(** Why a tool invocation failed: the peer rejected the call with [e]
    ([Some e]), or the agent had no client ([None]). *)
Definition failure_error (cause : option JsError) : JsError :=
  match cause with
  | Some e => e
  | None => NotConnected
  end.

Definition failure_event (u : ToolUse) (cause : option JsError) : list PeerEvent :=
  match cause with
  | Some e => [EvCallTool (tu_name u) (tu_input u) (inl e)]
  | None => []
  end.

Definition round_svc (rd : Round) : SvcEvent := (rd_request rd, inr (rd_response rd)).
Definition round_peer (rd : Round) : list PeerEvent := map call_event (rd_calls rd).
Definition round_actions (rd : Round) : list Action := map call_action (rd_calls rd).

Definition end_svc (en : Ending) : list SvcEvent :=
  match en with
  | Final req resp => [(req, inr resp)]
  | OutOfTurns => []
  | ServiceFailed req e => [(req, inl e)]
  | ToolFailed req resp _ _ _ => [(req, inr resp)]
  end.

Definition end_peer (en : Ending) : list PeerEvent :=
  match en with
  | ToolFailed _ _ calls u cause => map call_event calls ++ failure_event u cause
  | _ => []
  end.

Definition end_actions (en : Ending) : list Action :=
  match en with
  | ToolFailed _ _ calls _ _ => map call_action calls
  | _ => []
  end.

Definition end_outcome (en : Ending) (acts : list Action) : Outcome ProcessResult :=
  match en with
  | Final _ resp => Return (mkResult (finalText resp) acts)
  | OutOfTurns => Throw MaxTurnsExceeded
  | ServiceFailed _ e => Throw e
  | ToolFailed _ _ _ _ cause => Throw (failure_error cause)
  end.

(** A completed round answers the tool-use blocks of its response, all
    of them and in their order. *)
Definition round_ok (rd : Round) : Prop :=
  is_final (rd_response rd) = false
  /\ map fst (rd_calls rd) = toolUseBlocks (content (rd_response rd)).

Definition ending_ok (client : option Client) (en : Ending) : Prop :=
  match en with
  | Final _ resp => is_final resp = true
  | OutOfTurns => True
  | ServiceFailed _ _ => True
  | ToolFailed _ resp calls u cause =>
      is_final resp = false
      /\ (exists rest, toolUseBlocks (content resp) = map fst calls ++ u :: rest)
      /\ (cause = None <-> client = None)
  end.

(** The rounds an ending takes: the last request, if one was made. *)
Definition end_rounds (en : Ending) : nat :=
  match en with
  | OutOfTurns => 0
  | _ => 1
  end.

(** The request of the first call to the decision service in a run. *)
Definition first_request (rounds : list Round) (en : Ending) : option Request :=
  match rounds, en with
  | rd :: _, _ => Some (rd_request rd)
  | [], Final req _ => Some req
  | [], ServiceFailed req _ => Some req
  | [], ToolFailed req _ _ _ _ => Some req
  | [], OutOfTurns => None
  end.

(** What a state [(fr', m')] owes to a run from [(fr, m)]. *)
Definition explains (rounds : list Round) (en : Ending)
    (fr : Frame) (m : Machine) (res : Outcome ProcessResult * (Frame * Machine)) : Prop :=
  let '(out, (fr', m')) := res in
  this m' = this m
  /\ process_env (world m') = process_env (world m)
  /\ svc_log (world m') = svc_log (world m) ++ map round_svc rounds ++ end_svc en
  /\ peer_log (world m') =
       peer_log (world m) ++ flat_map round_peer rounds ++ end_peer en
  /\ frame_actions fr' =
       frame_actions fr ++ flat_map round_actions rounds ++ end_actions en
  /\ out = end_outcome en (frame_actions fr').

(** ** Reading a run off the logs *)

Definition outcome_of (res : Outcome ProcessResult * (option Frame * Machine))
  : Outcome ProcessResult := fst res.
Definition locals_of (res : Outcome ProcessResult * (option Frame * Machine))
  : option Frame := fst (snd res).
Definition machine_of (res : Outcome ProcessResult * (option Frame * Machine))
  : Machine := snd (snd res).

(** The decision service answered, and not with a final response. *)
Definition not_final_event (ev : SvcEvent) : bool :=
  match snd ev with
  | inr resp => negb (is_final resp)
  | inl _ => false
  end.

(** The peer did not reject a tool call. *)
Definition resolved_event (ev : PeerEvent) : bool :=
  match ev with
  | EvCallTool _ _ (inl _) => false
  | _ => true
  end.

(** The tool invocations a response asks the loop to execute: the
    tool-use blocks of a response that is not final, in their order. *)
Definition requested (ev : SvcEvent) : list ToolUse :=
  match snd ev with
  | inr resp => if is_final resp then [] else toolUseBlocks (content resp)
  | inl _ => []
  end.

(** All the tool-use blocks of a response, final or not. *)
Definition requests_of (ev : SvcEvent) : list ToolUse :=
  match snd ev with
  | inr resp => toolUseBlocks (content resp)
  | inl _ => []
  end.

(** ** Unfolding equations *)

Lemma callTool_eq toolName toolInput (m : Machine) :
  _callTool toolName toolInput m =
  match mcpClient (this m) with
  | None => (Throw NotConnected, m)
  | Some _ =>
      let r := mcp_callTool (peer_log (world m)) toolName toolInput in
      (match r with inl e => Throw e | inr v => Return v end,
       log_peer (EvCallTool toolName toolInput r) m)
  end.
Proof.
  unfold _callTool, bind, gets, await_callTool, settle, ret, throw; simpl.
  destruct (mcpClient (this m)); [|reflexivity].
  destruct (mcp_callTool _ _ _); reflexivity.
Qed.

Lemma call_tools_cons u rest acc (fr : Frame) (m : Machine) :
  call_tools (u :: rest) acc (fr, m) =
  match _callTool (tu_name u) (tu_input u) m with
  | (Return v, m') =>
      call_tools rest (acc ++ [mkToolResult (tu_id u) (JSON_stringify v)])
        (push_action (mkAction (tu_name u) (tu_input u) v) fr, m')
  | (Throw e, m') => (Throw e, (fr, m'))
  end.
Proof.
  simpl. unfold bind at 1. unfold lift at 1. simpl.
  destruct (_callTool _ _ m) as [[v|e] m']; reflexivity.
Qed.

Lemma agentic_loop_S remaining (fr : Frame) (m : Machine) :
  agentic_loop (S remaining) (fr, m) =
  let req := next_request fr m in
  let r := anthropic_create (svc_log (world m)) req in
  let m1 := log_svc (req, r) m in
  let fr1 := incr_turns fr in
  match r with
  | inl e => (Throw e, (fr1, m1))
  | inr resp =>
      if is_final resp then
        (Return (mkResult (finalText resp) (frame_actions fr)), (fr1, m1))
      else
        match call_tools (toolUseBlocks (content resp)) []
                (push_message (mkMessage assistant (Blocks (content resp))) fr1, m1) with
        | (Return trs, (fr2, m2)) =>
            agentic_loop remaining
              (push_message (mkMessage user (ToolResults trs)) fr2, m2)
        | (Throw e, s) => (Throw e, s)
        end
  end.
Proof.
  cbn [agentic_loop]. unfold bind, on_frame, modify, gets, lift, await_create, settle.
  cbn [fst snd]. fold (next_request fr m).
  destruct (anthropic_create _ _) as [e|resp]; [reflexivity|].
  unfold ret. destruct (is_final resp); [reflexivity|].
  cbn [fst snd].
  destruct (call_tools _ _ _) as [[trs|e] [fr2 m2]]; reflexivity.
Qed.

(** ** The tool loop *)

(** What [call_tools] does: it answers a prefix [calls] of the blocks,
    logging one peer call and one action for each, and either finishes
    the blocks or stops at the first invocation that throws. *)
Lemma call_tools_trace blocks :
  forall acc (fr : Frame) (m : Machine),
  exists calls,
    let '(out, (fr', m')) := call_tools blocks acc (fr, m) in
    this m' = this m
    /\ process_env (world m') = process_env (world m)
    /\ svc_log (world m') = svc_log (world m)
    /\ turns fr' = turns fr
    /\ frame_actions fr' = frame_actions fr ++ map call_action calls
    /\ match out with
       | Return trs =>
           map fst calls = blocks
           /\ trs = acc ++ map call_result calls
           /\ peer_log (world m') = peer_log (world m) ++ map call_event calls
       | Throw e =>
           exists u rest cause,
             blocks = map fst calls ++ u :: rest
             /\ e = failure_error cause
             /\ (cause = None <-> mcpClient (this m) = None)
             /\ peer_log (world m') =
                  peer_log (world m) ++ map call_event calls ++ failure_event u cause
       end.
Proof.
  induction blocks as [|u rest IH]; intros acc fr m.
  - exists []. simpl. unfold ret. rewrite !app_nil_r. auto 10.
  - rewrite call_tools_cons, callTool_eq.
    destruct (mcpClient (this m)) as [c|] eqn:Hc.
    + cbn zeta. destruct (mcp_callTool _ _ _) as [e|v] eqn:Hr.
      * exists []. simpl. rewrite app_nil_r. repeat split; auto.
        exists u, rest, (Some e). simpl. repeat split; auto; discriminate.
      * set (fr1 := push_action _ fr). set (m1 := log_peer _ m).
        destruct (IH (acc ++ [mkToolResult (tu_id u) (JSON_stringify v)]) fr1 m1)
          as [calls IHc].
        exists ((u, v) :: calls).
        destruct (call_tools rest _ (fr1, m1)) as [out [fr' m']].
        destruct IHc as (Ht & He & Hs & Hm & Ha & Ho).
        subst fr1 m1. simpl in *.
        repeat split; auto.
        { rewrite Ha, <- app_assoc. reflexivity. }
        destruct out as [trs|e'].
        { destruct Ho as (Hb & Htr & Hp). repeat split.
          - rewrite Hb. reflexivity.
          - rewrite Htr, <- app_assoc. reflexivity.
          - rewrite Hp, <- app_assoc. reflexivity. }
        { destruct Ho as (u' & rest' & cause & Hb & Hee & Hcause & Hp).
          exists u', rest', cause.
          split; [rewrite Hb; reflexivity|].
          split; [assumption|].
          split; [rewrite <- Hc; exact Hcause|].
          rewrite Hp, <- app_assoc. reflexivity. }
    + exists []. simpl. rewrite !app_nil_r. repeat split; auto.
      exists u, rest, None. simpl. rewrite app_nil_r. repeat split; auto.
Qed.

(** ** The agentic loop *)

(** Every run of the loop is explained by a trace: completed rounds, then
    an ending. The loop throws [MaxTurnsExceeded] exactly when all of its
    turns were completed rounds. *)
Lemma agentic_loop_trace remaining :
  forall (fr : Frame) (m : Machine),
  exists rounds en,
    explains rounds en fr m (agentic_loop remaining (fr, m))
    /\ Forall round_ok rounds
    /\ ending_ok (mcpClient (this m)) en
    /\ (length rounds + end_rounds en <= remaining)%nat
    /\ (en = OutOfTurns -> length rounds = remaining)
    /\ first_request rounds en =
         match remaining with
         | O => None
         | S _ => Some (next_request fr m)
         end
    /\ turns (fst (snd (agentic_loop remaining (fr, m)))) =
         (turns fr + length rounds + end_rounds en)%nat.
Proof.
  induction remaining as [|remaining IH]; intros fr m.
  - exists [], OutOfTurns. simpl. unfold throw. rewrite !app_nil_r.
    repeat split; auto. lia.
  - rewrite agentic_loop_S. cbn zeta.
    set (req := next_request fr m).
    destruct (anthropic_create (svc_log (world m)) req) as [e|resp] eqn:Hr.
    { exists [], (ServiceFailed req e). simpl. rewrite !app_nil_r.
      repeat split; auto; try lia; discriminate. }
    destruct (is_final resp) eqn:Hfin.
    { exists [], (Final req resp). simpl. rewrite !app_nil_r.
      repeat split; auto; try lia; discriminate. }
    set (fr1 := push_message _ (incr_turns fr)).
    set (m1 := log_svc _ m).
    destruct (call_tools_trace (toolUseBlocks (content resp)) [] fr1 m1) as [calls Hc].
    destruct (call_tools _ _ (fr1, m1)) as [[trs|e] [fr2 m2]].
    + destruct Hc as (Ht & He & Hs & Htu & Ha & Hb & _ & Hp).
      set (fr3 := push_message _ fr2).
      destruct (IH fr3 m2) as (rounds & en & Hex & Hrs & Hen & Hlen & Hout & _ & Hturns).
      exists (mkRound req resp calls :: rounds), en.
      destruct (agentic_loop remaining (fr3, m2)) as [out [fr' m']].
      destruct Hex as (Xt & Xe & Xs & Xp & Xa & Xo).
      subst fr3 fr1 m1. simpl in *.
      repeat split; auto.
      * congruence.
      * congruence.
      * rewrite Xs, Hs, <- app_assoc. reflexivity.
      * rewrite Xp, Hp. unfold round_peer. simpl. rewrite <- !app_assoc. reflexivity.
      * rewrite Xa, Ha. unfold round_actions. simpl. rewrite <- !app_assoc. reflexivity.
      * constructor; [split; assumption | assumption].
      * rewrite Ht in Hen. exact Hen.
      * lia.
      * rewrite Hturns, Htu. lia.
    + destruct Hc as (Ht & He & Hs & Htu & Ha & u & rest & cause & Hb & Hee & Hcause & Hp).
      exists [], (ToolFailed req resp calls u cause).
      subst fr1 m1. simpl in *.
      repeat split; auto; try lia; try discriminate.
      * congruence.
      * exists rest. exact Hb.
      * apply Hcause.
      * apply Hcause.
Qed.

(** ** process *)

Lemma process_of_run input now (m : Machine) :
  process input now m =
  (outcome_of (process_run input now m), machine_of (process_run input now m)).
Proof.
  unfold process, outcome_of, machine_of.
  destruct (process_run input now m) as [o [fr m']]. reflexivity.
Qed.

Lemma process_run_invalid input now (m : Machine) e :
  formatDateContext tz toLocaleDateString now = inl e ->
  process_run input now m = (Throw e, (None, m)).
Proof. intros H. unfold process_run. rewrite H. reflexivity. Qed.

Lemma process_run_trace input now (m : Machine) dateContext :
  formatDateContext tz toLocaleDateString now = inr dateContext ->
  exists rounds en fr' m',
    process_run input now m = (end_outcome en (frame_actions fr'), (Some fr', m'))
    /\ this m' = this m
    /\ process_env (world m') = process_env (world m)
    /\ svc_log (world m') = svc_log (world m) ++ map round_svc rounds ++ end_svc en
    /\ peer_log (world m') =
         peer_log (world m) ++ flat_map round_peer rounds ++ end_peer en
    /\ frame_actions fr' = flat_map round_actions rounds ++ end_actions en
    /\ Forall round_ok rounds
    /\ ending_ok (mcpClient (this m)) en
    /\ (length rounds + end_rounds en <= MAX_TURNS)%nat
    /\ (en = OutOfTurns -> length rounds = MAX_TURNS)
    /\ first_request rounds en =
         Some (next_request (initial_frame (userMessage dateContext input)) m)
    /\ turns fr' = (length rounds + end_rounds en)%nat.
Proof.
  intros Hd. unfold process_run. rewrite Hd.
  set (fr := initial_frame _).
  destruct (agentic_loop_trace MAX_TURNS fr m)
    as (rounds & en & Hex & Hrs & Hen & Hlen & Hout & Hfirst & Hturns).
  destruct (agentic_loop MAX_TURNS (fr, m)) as [out [fr' m']].
  destruct Hex as (Xt & Xe & Xs & Xp & Xa & Xo).
  exists rounds, en, fr', m'. subst out. simpl in *.
  repeat split; auto.
Qed.

Lemma join_nil (parts : list jsstring) : join [] parts = concat parts.
Proof.
  induction parts as [|p parts IH]; [reflexivity|].
  destruct parts as [|q parts]; simpl in *.
  - rewrite app_nil_r. reflexivity.
  - rewrite IH. reflexivity.
Qed.

Lemma is_final_spec (r : Response) :
  is_final r = true <->
  stop_reason r = lit "end_turn" \/ toolUseBlocks (content r) = [].
Proof.
  unfold is_final. rewrite orb_true_iff, bool_decide_eq_true, Nat.eqb_eq.
  split; (intros [H|H]; [left; exact H|right]).
  - destruct (toolUseBlocks (content r)); [reflexivity|discriminate].
  - rewrite H. reflexivity.
Qed.

Lemma round_svc_lookup rounds i req (resp : Response) :
  Forall round_ok rounds ->
  map round_svc rounds !! i = Some (req, inr resp) ->
  is_final resp = false.
Proof.
  intros Hok Hi. rewrite list_lookup_fmap in Hi.
  destruct (rounds !! i) as [rd|] eqn:Hrd; [|discriminate].
  simpl in Hi. injection Hi as _ <-.
  rewrite Forall_lookup in Hok. exact (proj1 (Hok _ _ Hrd)).
Qed.

(** The last event of a run's calls to the decision service. *)
Lemma last_svc rounds en :
  Forall round_ok rounds ->
  last (map round_svc rounds ++ end_svc en) =
  match en with
  | Final req resp => Some (req, inr resp)
  | OutOfTurns => last (map round_svc rounds)
  | ServiceFailed req e => Some (req, inl e)
  | ToolFailed req resp _ _ _ => Some (req, inr resp)
  end.
Proof.
  intros _. destruct en; simpl; rewrite ?app_nil_r, ?last_snoc; reflexivity.
Qed.

(** C1 (as amended). In every run of [process], the call returns exactly
    when the last response received from the decision service is final,
    that is when its stop reason is [end_turn] or it holds no tool-use
    block; a final response always ends the run. The value returned is
    the response's text segments concatenated in order, without a
    separator, and trimmed, together with the action log accumulated so
    far; when the first response is final the action log is empty. *)
Theorem process_returns_at_final_response input now (m : Machine) :
  let '(out, (fr, m')) := process_run input now m in
  exists sd,
    svc_log (world m') = svc_log (world m) ++ sd
    /\ ((exists r, out = Return r) <->
        (exists req resp, last sd = Some (req, inr resp) /\ is_final resp = true))
    /\ (forall i req resp,
          sd !! i = Some (req, inr resp) -> is_final resp = true ->
          S i = length sd)
    /\ (forall r, out = Return r ->
          exists req resp fr0,
            last sd = Some (req, inr resp) /\ fr = Some fr0
            /\ r = mkResult (trim (concat (texts (content resp))))
                            (frame_actions fr0))
    /\ (forall r, out = Return r -> length sd = 1%nat -> actions r = [])
    /\ (forall resp : Response,
          is_final resp = true <->
          stop_reason resp = lit "end_turn" \/ toolUseBlocks (content resp) = []).
Proof.
  destruct (formatDateContext tz toLocaleDateString now) as [e|dc] eqn:Hd.
  { rewrite (process_run_invalid input now m e Hd).
    exists []. rewrite app_nil_r.
    repeat split; try discriminate; try apply is_final_spec.
    - intros [r Hr]. discriminate.
    - intros (req & resp & Hl & _). discriminate. }
  destruct (process_run_trace input now m dc Hd)
    as (rounds & en & fr' & m' & Hrun & _ & _ & Hs & _ & Ha & Hok & Hen & _ & _ & _ & _).
  rewrite Hrun. exists (map round_svc rounds ++ end_svc en).
  split; [exact Hs|].
  assert (Hlast := last_svc rounds en Hok).
  assert (Hnf : forall req resp,
             last (map round_svc rounds) = Some (req, inr resp) -> is_final resp = false).
  { intros req resp Hl. rewrite last_lookup in Hl.
    exact (round_svc_lookup _ _ _ _ Hok Hl). }
  split; [|split; [|split; [|split]]].
  - rewrite Hlast. destruct en as [req resp| |req e|req resp calls u cause]; simpl in *.
    + split; intros _; eauto.
    + split; [intros [r Hr]; discriminate|].
      intros (req & resp & Hl & Hf). rewrite (Hnf _ _ Hl) in Hf. discriminate.
    + split; [intros [r Hr]; discriminate|].
      intros (req' & resp & Hl & _). discriminate.
    + split; [intros [r Hr]; discriminate|].
      intros (req' & resp' & Hl & Hf). injection Hl as _ <-.
      rewrite (proj1 Hen) in Hf. discriminate.
  - intros i req resp Hi Hf.
    apply lookup_app_Some in Hi. destruct Hi as [Hi'|[Hge Hi']].
    + rewrite (round_svc_lookup _ _ _ _ Hok Hi') in Hf. discriminate.
    + rewrite length_app. rewrite length_map in *.
      destruct (i - length rounds)%nat as [|k] eqn:Hk;
        destruct en as [req0 resp0| |req0 e|req0 resp0 calls u cause];
        simpl in *; try discriminate.
      * lia.
      * injection Hi' as _ <-. rewrite (proj1 Hen) in Hf. discriminate.
  - intros r Hr. rewrite Hlast.
    destruct en as [req resp| |req e|req resp calls u cause]; simpl in *;
      try discriminate.
    injection Hr as <-. exists req, resp, fr'.
    unfold finalText. rewrite join_nil. auto.
  - intros r Hr Hone.
    destruct en as [req resp| |req e|req resp calls u cause]; simpl in *;
      try discriminate.
    injection Hr as <-. simpl. rewrite Ha.
    rewrite length_app, length_map in Hone. simpl in Hone.
    destruct rounds; [reflexivity|simpl in Hone; lia].
  - intros resp. apply is_final_spec.
Qed.

Lemma flat_map_round_peer rounds :
  flat_map round_peer rounds = map call_event (flat_map rd_calls rounds).
Proof.
  induction rounds as [|rd rounds IH]; [reflexivity|].
  simpl. rewrite map_app, IH. reflexivity.
Qed.

Lemma flat_map_round_actions rounds :
  flat_map round_actions rounds = map call_action (flat_map rd_calls rounds).
Proof.
  induction rounds as [|rd rounds IH]; [reflexivity|].
  simpl. rewrite map_app, IH. reflexivity.
Qed.

Lemma requested_rounds rounds :
  Forall round_ok rounds ->
  flat_map requested (map round_svc rounds) = map fst (flat_map rd_calls rounds).
Proof.
  induction 1 as [|rd rounds [Hnf Hb] _ IH]; [reflexivity|].
  cbn [map flat_map]. rewrite map_app, IH. unfold requested at 1.
  cbn [round_svc snd]. rewrite Hnf, <- Hb. reflexivity.
Qed.

Lemma requests_of_rounds rounds :
  Forall round_ok rounds ->
  flat_map requests_of (map round_svc rounds) = map fst (flat_map rd_calls rounds).
Proof.
  induction 1 as [|rd rounds [Hnf Hb] _ IH]; [reflexivity|].
  cbn [map flat_map]. rewrite map_app, IH. unfold requests_of at 1.
  cbn [round_svc snd]. rewrite <- Hb. reflexivity.
Qed.

Lemma not_final_rounds rounds :
  Forall round_ok rounds -> forallb not_final_event (map round_svc rounds) = true.
Proof.
  induction 1 as [|rd rounds [Hnf _] _ IH]; [reflexivity|].
  simpl. unfold not_final_event at 1. simpl. rewrite Hnf, IH. reflexivity.
Qed.

Lemma resolved_calls (calls : list Call) :
  forallb resolved_event (map call_event calls) = true.
Proof. induction calls as [|c calls IH]; [reflexivity|exact IH]. Qed.

Lemma end_rounds_svc en : end_rounds en = length (end_svc en).
Proof. destruct en; reflexivity. Qed.

(** C2 (as amended). For a reference instant whose date context can be
    built and an agent that has a client: in every run of [process] in
    which the decision service answers every request, never with a final
    response, and the peer rejects no tool call, [process] throws the
    maximum-turns error, whose message names the cap, and the decision
    service was called exactly [MAX_TURNS] times. *)
Theorem process_exceeds_max_turns input now (m : Machine) dateContext sd pd :
  let res := process_run input now m in
  formatDateContext tz toLocaleDateString now = inr dateContext ->
  mcpClient (this m) <> None ->
  svc_log (world (machine_of res)) = svc_log (world m) ++ sd ->
  peer_log (world (machine_of res)) = peer_log (world m) ++ pd ->
  forallb not_final_event sd = true ->
  forallb resolved_event pd = true ->
  outcome_of res = Throw MaxTurnsExceeded
  /\ length sd = MAX_TURNS
  /\ err_message MaxTurnsExceeded =
       lit "Agent exceeded maximum turns (10). Aborting to prevent runaway tool calls.".
Proof.
  intros res Hd Hconn Hsd Hpd Hnf Hres. subst res.
  destruct (process_run_trace input now m dateContext Hd)
    as (rounds & en & fr' & m' & Hrun & _ & _ & Hs & Hp & _ & Hok & Hen & _ & Hout & _ & _).
  rewrite Hrun in *. unfold machine_of, outcome_of in *. simpl in *.
  rewrite Hs in Hsd. apply app_inv_head in Hsd. subst sd.
  rewrite Hp in Hpd. apply app_inv_head in Hpd. subst pd.
  rewrite forallb_app in Hnf, Hres.
  apply andb_true_iff in Hnf as [_ Hnf]. apply andb_true_iff in Hres as [_ Hres].
  destruct en as [req resp| |req e|req resp calls u cause]; simpl in *.
  - unfold not_final_event in Hnf. simpl in Hnf. rewrite Hen in Hnf. discriminate.
  - rewrite app_nil_r, length_map, Hout by reflexivity. auto.
  - discriminate.
  - destruct cause as [e|].
    + rewrite forallb_app in Hres. apply andb_true_iff in Hres as [_ Hres].
      discriminate.
    + destruct Hen as (_ & _ & Hcause). destruct Hconn. apply Hcause. reflexivity.
Qed.

(** C3 (as amended). When [process] returns, the peer was called exactly
    once for each tool-use block of the responses that are not final,
    in the order of the rounds and, within a round, in the order of the
    blocks, each time with the name and the arguments of the block; the
    action log returned has one entry for each of these calls, in the
    same order, holding that name, those arguments and the result of the
    call. The run ends on a final response, all the responses before it
    are not final, and the tool-use blocks the final response may hold
    are not executed: the calls are those of the earlier responses
    alone. *)
Theorem process_action_log input now (m : Machine) r :
  let res := process_run input now m in
  outcome_of res = Return r ->
  exists sd calls,
    svc_log (world (machine_of res)) = svc_log (world m) ++ sd
    /\ map fst calls = flat_map requested sd
    /\ peer_log (world (machine_of res)) = peer_log (world m) ++ map call_event calls
    /\ actions r = map call_action calls
    /\ length (actions r) = length (flat_map requested sd)
    /\ exists earlier req resp,
         sd = earlier ++ [(req, inr resp)]
         /\ forallb not_final_event earlier = true
         /\ is_final resp = true
         /\ map fst calls = flat_map requests_of earlier.
Proof.
  intros res Hret. subst res.
  destruct (formatDateContext tz toLocaleDateString now) as [e|dc] eqn:Hd.
  { rewrite (process_run_invalid input now m e Hd) in Hret. discriminate. }
  destruct (process_run_trace input now m dc Hd)
    as (rounds & en & fr' & m' & Hrun & _ & _ & Hs & Hp & Ha & Hok & Hen & _).
  rewrite Hrun in *. unfold machine_of, outcome_of in *. simpl in *.
  destruct en as [req resp| |req e|req resp calls u cause]; simpl in *;
    try discriminate.
  injection Hret as <-.
  exists (map round_svc rounds ++ [(req, inr resp)]), (flat_map rd_calls rounds).
  assert (Hreq : map fst (flat_map rd_calls rounds) =
                 flat_map requested (map round_svc rounds ++ [(req, inr resp)])).
  { rewrite flat_map_app, requested_rounds by exact Hok. simpl.
    unfold requested. simpl. rewrite Hen. rewrite !app_nil_r. reflexivity. }
  rewrite !app_nil_r in *.
  repeat split.
  - exact Hs.
  - exact Hreq.
  - rewrite Hp, flat_map_round_peer. reflexivity.
  - simpl. rewrite Ha, flat_map_round_actions. reflexivity.
  - simpl. rewrite Ha, flat_map_round_actions, <- Hreq, !length_map. reflexivity.
  - exists (map round_svc rounds), req, resp.
    split; [reflexivity|]. split; [exact (not_final_rounds rounds Hok)|].
    split; [exact Hen|]. symmetry. exact (requests_of_rounds rounds Hok).
Qed.


Lemma not_final_has_tool_use (resp : Response) :
  is_final resp = false -> toolUseBlocks (content resp) <> [].
Proof.
  intros Hnf Hnil. assert (is_final resp = true) as Ht.
  { apply is_final_spec. right. exact Hnil. }
  congruence.
Qed.

(** C6 (as amended). For an agent without a client (never connected, or
    disconnected) and a reference instant whose date context can be
    built, [process] calls the decision service exactly once and never
    calls the peer: it throws the not-connected error when that first
    response is not final, returns normally (with an empty action log)
    when it is final, and throws the service's error when the call
    fails. *)
Theorem process_not_connected input now (m : Machine) dateContext :
  let req := next_request (initial_frame (userMessage dateContext input)) m in
  let r := anthropic_create (svc_log (world m)) req in
  mcpClient (this m) = None ->
  formatDateContext tz toLocaleDateString now = inr dateContext ->
  process input now m =
    (match r with
     | inl e => Throw e
     | inr resp =>
         if is_final resp then Return (mkResult (finalText resp) [])
         else Throw NotConnected
     end,
     log_svc (req, r) m).
Proof.
  intros req r Hnone Hd. subst req r.
  unfold process, process_run. rewrite Hd.
  change MAX_TURNS with (S 9). rewrite agentic_loop_S. cbn zeta.
  destruct (anthropic_create _ _) as [e|resp] eqn:Hr; [reflexivity|].
  destruct (is_final resp) eqn:Hfin; [reflexivity|].
  destruct (toolUseBlocks (content resp)) as [|u rest] eqn:Hb.
  { destruct (not_final_has_tool_use resp Hfin Hb). }
  rewrite call_tools_cons, callTool_eq. simpl. rewrite Hnone. reflexivity.
Qed.

(** C9. A call to [process], whether it returns or throws, leaves the
    fields of the agent as they were. Its message sequence, turn counter
    and action log are its own: whatever was done on the agent before,
    the first request of the call carries the grounded utterance as its
    only message, the turn counter ends as the number of requests this
    call made (at most [MAX_TURNS]), and the action log ends with exactly
    the tool invocations this call saw resolved. *)
Theorem process_frame_effect input now (m : Machine) :
  let res := process_run input now m in
  this (machine_of res) = this m
  /\ snd (process input now m) = machine_of res
  /\ (exists sd,
        svc_log (world (machine_of res)) = svc_log (world m) ++ sd
        /\ (length sd <= MAX_TURNS)%nat
        /\ (forall fr, locals_of res = Some fr -> turns fr = length sd)
        /\ (forall ev, head sd = Some ev ->
              exists dateContext,
                formatDateContext tz toLocaleDateString now = inr dateContext
                /\ fst ev =
                     mkRequest (lit "claude-opus-4-6") 4096 SYSTEM_PROMPT
                       (tools (this m))
                       [mkMessage user (Text (userMessage dateContext input))]))
  /\ (forall fr, locals_of res = Some fr ->
        exists calls rejected,
          peer_log (world (machine_of res)) =
            peer_log (world m) ++ map call_event calls ++ rejected
          /\ (length rejected <= 1)%nat
          /\ frame_actions fr = map call_action calls).
Proof.
  intros res. subst res.
  assert (Hp : snd (process input now m) = machine_of (process_run input now m)).
  { unfold process, machine_of.
    destruct (process_run input now m) as [o [fr m']]. reflexivity. }
  destruct (formatDateContext tz toLocaleDateString now) as [e|dc] eqn:Hd.
  { rewrite Hp. rewrite (process_run_invalid input now m e Hd).
    unfold machine_of, locals_of. simpl.
    repeat split; try discriminate.
    exists []. rewrite app_nil_r. repeat split; try discriminate. simpl. lia. }
  rewrite Hp.
  destruct (process_run_trace input now m dc Hd)
    as (rounds & en & fr' & m' & Hrun & Ht & _ & Hs & Hpl & Ha & Hok & Hen
        & Hlen & _ & Hfirst & Hturns).
  rewrite Hrun. unfold machine_of, locals_of. simpl.
  split; [exact Ht|]. split; [reflexivity|]. split.
  - exists (map round_svc rounds ++ end_svc en).
    rewrite length_app, length_map, <- end_rounds_svc.
    repeat split; auto.
    + intros fr Hfr. injection Hfr as <-. exact Hturns.
    + intros ev Hev. exists dc. split; [reflexivity|].
      destruct rounds as [|rd rounds]; destruct en; simpl in *;
        try discriminate; injection Hev as <-; injection Hfirst as Hf;
        cbn [fst round_svc]; rewrite Hf; reflexivity.
  - intros fr Hfr. injection Hfr as <-.
    rewrite flat_map_round_peer in Hpl. rewrite flat_map_round_actions in Ha.
    destruct en as [req resp| |req e|req resp calls u cause]; simpl in *.
    1-3: exists (flat_map rd_calls rounds), [];
         rewrite ?app_nil_r in *; simpl; repeat split; auto.
    exists (flat_map rd_calls rounds ++ calls), (failure_event u cause).
    rewrite map_app, <- app_assoc. repeat split; auto.
    + destruct cause; simpl; lia.
    + rewrite Ha, map_app. reflexivity.
Qed.

(** ** connect and disconnect *)

Lemma strip_keys_lookup ks :
  forall (o : gmap jsstring (option jsstring)) k,
  strip_keys ks o !! k =
  match o !! k with
  | Some None => if decide (k ∈ ks) then None else Some None
  | x => x
  end.
Proof.
  induction ks as [|a ks IH]; intros o k.
  - simpl. destruct (o !! k) as [[v|]|]; reflexivity.
  - unfold strip_keys in *. cbn [fold_left]. rewrite IH.
    destruct (decide (a = k)) as [->|Hne].
    + destruct (o !! k) as [[v|]|] eqn:Hk; rewrite ?Hk; try reflexivity.
      rewrite lookup_delete_eq. rewrite decide_True; [reflexivity|].
      apply elem_of_cons. left. reflexivity.
    + assert (Hsame : (match o !! a with
                       | Some None => delete a o
                       | _ => o
                       end) !! k = o !! k).
      { destruct (o !! a) as [[v|]|]; try reflexivity.
        apply lookup_delete_ne. exact Hne. }
      rewrite Hsame. destruct (o !! k) as [[v|]|]; try reflexivity.
      destruct (decide (k ∈ ks)) as [Hin|Hnin].
      * rewrite decide_True; [reflexivity|]. apply elem_of_cons. right. exact Hin.
      * rewrite decide_False; [reflexivity|].
        intros Hc. apply elem_of_cons in Hc as [Hc|Hc]; [congruence|contradiction].
Qed.

(** Stripping keeps the defined values and nothing else. *)
Lemma strip_undefined_lookup (o : gmap jsstring (option jsstring)) k :
  strip_undefined o !! k =
  match o !! k with
  | Some (Some v) => Some (Some v)
  | _ => None
  end.
Proof.
  unfold strip_undefined. rewrite strip_keys_lookup.
  destruct (o !! k) as [[v|]|] eqn:Hk; try reflexivity.
  rewrite decide_True; [reflexivity|].
  apply list_elem_of_fmap. exists (k, None). split; [reflexivity|].
  apply elem_of_map_to_list. exact Hk.
Qed.

Ltac absurd_key :=
  exfalso;
  first
    [ match goal with
      | H : @eq (list N) _ _ |- _ => vm_compute in H; discriminate H
      end
    | match goal with
      | H : ?a <> ?a |- _ => apply H; reflexivity
      end
    | match goal with
      | H : ~ (_ ∈ _) |- _ => apply H; apply list_elem_of_In; vm_compute; tauto
      end
    | match goal with
      | H : _ ∈ _ |- _ =>
          apply list_elem_of_In in H; vm_compute in H; intuition discriminate
      end
    | match goal with
      | H : _ ∈ _ |- _ =>
          apply list_elem_of_In in H; simpl in H; intuition congruence
      end ].

(** The child's environment, key by key. *)
Lemma mcpEnv_lookup (penv : gmap jsstring jsstring) sheet k :
  mcpEnv penv sheet !! k =
  if decide (k = lit "NODE_ENV")
  then Some (Some (or_else (penv !! lit "NODE_ENV") (lit "production")))
  else if decide (k = lit "LIFERHYTHM_SHEET_ID") then Some (Some sheet)
  else if decide (k ∈ copied_keys) then Some <$> penv !! k
  else None.
Proof.
  unfold mcpEnv. rewrite strip_undefined_lookup. unfold mcpEnv_literal.
  rewrite !lookup_insert, lookup_empty.
  repeat (case_decide; subst);
    first [ reflexivity
          | match goal with
            | |- context [?e !! ?key] => destruct (e !! key); reflexivity
            end
          | absurd_key ].
Qed.

Lemma connect_transport (m : Machine) :
  exists r rest,
    peer_log (world (snd (connect m))) =
    peer_log (world m)
    ++ EvConnect new_client
         (mkTransport (lit "node") [lit "index.js"] (mcpServerPath (this m))
            (mcpEnv (process_env (world m)) (sheetId (this m)))) r
       :: rest.
Proof.
  unfold connect, bind, modify, gets, await_connect, await_listTools, settle,
    ret, throw. simpl.
  destruct (mcp_connect _ _ _) as [e|[]]; simpl; [eauto|].
  destruct (mcp_listTools _) as [e|listed]; simpl;
    rewrite <- app_assoc; simpl; eauto.
Qed.

(** C7 (as amended). [connect] starts the child with the environment
    [mcpEnv]: its keys all come from the allow-list; [PATH], [HOME] and
    the three Google keys are copied from the ambient environment and are
    absent when unset there; [NODE_ENV] is always present (the ambient
    value, or [production] when that is unset or empty) and
    [LIFERHYTHM_SHEET_ID] is always the agent's sheet id; no key is left
    with an undefined value; and two ambient environments that agree on
    the allow-listed keys give the same child environment. *)
Theorem connect_environment (m : Machine) :
  let penv := process_env (world m) in
  let sheet := sheetId (this m) in
  let child := mcpEnv penv sheet in
  (exists r rest,
     peer_log (world (snd (connect m))) =
     peer_log (world m)
     ++ EvConnect new_client
          (mkTransport (lit "node") [lit "index.js"] (mcpServerPath (this m)) child) r
        :: rest)
  /\ (forall k, is_Some (child !! k) -> k ∈ allow_list)
  /\ (forall k, k ∈ copied_keys -> child !! k = Some <$> penv !! k)
  /\ child !! lit "NODE_ENV" =
       Some (Some (or_else (penv !! lit "NODE_ENV") (lit "production")))
  /\ child !! lit "LIFERHYTHM_SHEET_ID" = Some (Some sheet)
  /\ (forall k, child !! k <> Some None)
  /\ (forall penv' : gmap jsstring jsstring,
        (forall k, k ∈ allow_list -> penv' !! k = penv !! k) ->
        mcpEnv penv' sheet = child).
Proof.
  intros penv sheet child. subst child.
  split; [apply connect_transport|].
  split; [|split; [|split; [|split; [|split]]]].
  - intros k [v Hv]. rewrite mcpEnv_lookup in Hv.
    repeat case_decide; subst; try discriminate.
    + apply list_elem_of_In. vm_compute. tauto.
    + apply list_elem_of_In. vm_compute. tauto.
    + match goal with H : k ∈ copied_keys |- _ => apply list_elem_of_In in H; simpl in H end.
      apply list_elem_of_In. simpl. tauto.
  - intros k Hk. rewrite mcpEnv_lookup.
    repeat case_decide; subst; try reflexivity; try contradiction; absurd_key.
  - rewrite mcpEnv_lookup. rewrite decide_True; reflexivity.
  - rewrite mcpEnv_lookup.
    repeat case_decide; subst; try reflexivity; absurd_key.
  - intros k. rewrite mcpEnv_lookup.
    repeat case_decide; try discriminate.
    destruct (penv !! k); discriminate.
  - intros penv' Hagree. apply map_eq. intros k. rewrite !mcpEnv_lookup.
    assert (Hin : forall key, In key allow_list -> penv' !! key = penv !! key).
    { intros key Hkey. apply Hagree, list_elem_of_In, Hkey. }
    rewrite (Hin (lit "NODE_ENV")) by (vm_compute; tauto).
    repeat case_decide; try reflexivity.
    rewrite Hin; [reflexivity|].
    match goal with H : k ∈ copied_keys |- _ => apply list_elem_of_In in H; simpl in H end.
    simpl. tauto.
Qed.

(** C8. [disconnect] is idempotent: without a client it does nothing and
    does not fail; two calls in a row end in the same outcome and the
    same state as one call; and once it has returned the agent has no
    client. *)
Theorem disconnect_idempotent (m : Machine) :
  (mcpClient (this m) = None -> disconnect m = (Return tt, m))
  /\ (disconnect ;; disconnect)%js m = disconnect m
  /\ (forall m', disconnect m = (Return tt, m') ->
        mcpClient (this m') = None /\ disconnect m' = (Return tt, m')).
Proof.
  unfold disconnect, bind, gets, await_close, settle, modify, ret, throw.
  destruct (mcpClient (this m)) as [c|] eqn:Hc; simpl.
  - split; [discriminate|].
    destruct (mcp_close (peer_log (world m))) as [e|[]]; simpl.
    + split; [reflexivity|]. discriminate.
    + split; [reflexivity|]. intros m' Hm. injection Hm as <-. auto.
  - rewrite Hc. split; [reflexivity|]. split; [reflexivity|].
    intros m' Hm. injection Hm as <-. rewrite Hc. auto.
Qed.

(** ** The conversation sent to the decision service *)

(** What a completed round appends to [messages]: the assistant's
    content, then one tool result per call, carrying the id of its
    tool-use block and the JSON text of its result. *)
Definition round_messages (rd : Round) : list Message :=
  [mkMessage assistant (Blocks (content (rd_response rd)));
   mkMessage user (ToolResults (map call_result (rd_calls rd)))].

(** The request of the ending, when the ending made one. *)
Definition end_request (en : Ending) : option Request :=
  match en with
  | Final req _ => Some req
  | OutOfTurns => None
  | ServiceFailed req _ => Some req
  | ToolFailed req _ _ _ _ => Some req
  end.

(** The requests of a run, one after the other: each carries the model,
    the token limit, the system prompt, the tool list [ts] and the
    messages so far. *)
Fixpoint requests_ok (ts : list Tool) (msgs : list Message)
    (rounds : list Round) (en : Ending) : Prop :=
  match rounds with
  | [] =>
      match end_request en with
      | Some req => req = mkRequest (lit "claude-opus-4-6") 4096 SYSTEM_PROMPT ts msgs
      | None => True
      end
  | rd :: rest =>
      rd_request rd = mkRequest (lit "claude-opus-4-6") 4096 SYSTEM_PROMPT ts msgs
      /\ requests_ok ts (msgs ++ round_messages rd) rest en
  end.

(** The descriptor [connect] keeps of a tool the peer lists. *)
Definition descriptor (t : McpTool) : Tool :=
  mkTool (mcp_name t) (mcp_description t) (mcp_inputSchema t).

Lemma call_tools_messages blocks :
  forall acc (fr : Frame) (m : Machine),
  messages (fst (snd (call_tools blocks acc (fr, m)))) = messages fr.
Proof.
  induction blocks as [|u rest IH]; intros acc fr m; [reflexivity|].
  rewrite call_tools_cons.
  destruct (_callTool (tu_name u) (tu_input u) m) as [[v|e] m']; [|reflexivity].
  rewrite IH. reflexivity.
Qed.

Lemma agentic_loop_conversation remaining :
  forall (fr : Frame) (m : Machine),
  exists rounds en,
    let '(out, (fr', m')) := agentic_loop remaining (fr, m) in
    svc_log (world m') = svc_log (world m) ++ map round_svc rounds ++ end_svc en
    /\ peer_log (world m') =
         peer_log (world m) ++ flat_map round_peer rounds ++ end_peer en
    /\ Forall round_ok rounds
    /\ requests_ok (tools (this m)) (messages fr) rounds en
    /\ (forall r, out = Return r ->
          messages fr' = messages fr ++ flat_map round_messages rounds).
Proof.
  induction remaining as [|remaining IH]; intros fr m.
  - exists [], OutOfTurns. simpl. unfold throw. rewrite !app_nil_r.
    repeat split; auto; try discriminate.
  - rewrite agentic_loop_S. cbn zeta.
    set (req := next_request fr m).
    destruct (anthropic_create (svc_log (world m)) req) as [e|resp] eqn:Hr.
    { exists [], (ServiceFailed req e). simpl. rewrite !app_nil_r.
      repeat split; auto; try discriminate. }
    destruct (is_final resp) eqn:Hfin.
    { exists [], (Final req resp). simpl. rewrite !app_nil_r.
      repeat split; auto. }
    set (fr1 := push_message _ (incr_turns fr)).
    set (m1 := log_svc _ m).
    destruct (call_tools_trace (toolUseBlocks (content resp)) [] fr1 m1) as [calls Hc].
    pose proof (call_tools_messages (toolUseBlocks (content resp)) [] fr1 m1) as Hm.
    destruct (call_tools _ _ (fr1, m1)) as [[trs|e] [fr2 m2]].
    + destruct Hc as (Ht & He & Hs & Htu & Ha & Hb & Htrs & Hp).
      set (fr3 := push_message _ fr2).
      destruct (IH fr3 m2) as (rounds & en & Hex).
      exists (mkRound req resp calls :: rounds), en.
      destruct (agentic_loop remaining (fr3, m2)) as [out [fr' m']].
      destruct Hex as (Xs & Xp & Xok & Xreq & Xmsg).
      subst fr3 fr1 m1. simpl in *.
      assert (Hmsgs : messages fr2 ++ [mkMessage user (ToolResults trs)] =
                      messages fr ++ round_messages (mkRound req resp calls)).
      { rewrite Hm, Htrs. unfold round_messages. simpl.
        rewrite <- app_assoc. reflexivity. }
      repeat split; auto.
      * rewrite Xs, Hs, <- app_assoc. reflexivity.
      * rewrite Xp, Hp. unfold round_peer. simpl. rewrite <- !app_assoc. reflexivity.
      * constructor; [split; assumption | assumption].
      * rewrite Ht, Hmsgs in Xreq. exact Xreq.
      * intros r Hret. rewrite (Xmsg r Hret), Hmsgs, <- app_assoc. reflexivity.
    + destruct Hc as (Ht & He & Hs & Htu & Ha & u & rest & cause & Hb & Hee & Hcause & Hp).
      exists [], (ToolFailed req resp calls u cause).
      subst fr1 m1. simpl in *.
      repeat split; auto; try discriminate.
Qed.

Lemma requests_ok_tools ts rounds en :
  forall msgs,
  requests_ok ts msgs rounds en ->
  forall ev, ev ∈ map round_svc rounds ++ end_svc en ->
  req_tools (fst ev) = ts
  /\ system (fst ev) = SYSTEM_PROMPT
  /\ model (fst ev) = lit "claude-opus-4-6"
  /\ max_tokens (fst ev) = 4096.
Proof.
  induction rounds as [|rd rounds IH]; intros msgs Hok ev Hev.
  - simpl in *. destruct en; simpl in *;
      try (inversion Hev; fail);
      apply list_elem_of_singleton in Hev; subst ev; simpl; subst req; auto.
  - destruct Hok as [Hreq Hrest]. simpl in Hev.
    apply elem_of_cons in Hev as [->|Hev].
    + simpl. rewrite Hreq. auto.
    + exact (IH _ Hrest ev Hev).
Qed.

Lemma round_ok_ids rd :
  round_ok rd ->
  map tool_use_id (map call_result (rd_calls rd)) =
  map tu_id (toolUseBlocks (content (rd_response rd))).
Proof.
  intros [_ Hb]. rewrite <- Hb, !map_map. reflexivity.
Qed.

(** X5. The conversation [process] holds with the decision service. Every
    request of a run carries the model, the token limit, the system
    prompt, the agent's tool list and the messages so far: the grounded
    utterance, then for each completed round the assistant's content
    followed by one user message with one tool result per tool-use block
    of that content, in the order of the blocks, each with the id of its
    block and the JSON text of the result the peer gave for it. *)
Theorem process_conversation input now (m : Machine) dateContext :
  let res := process_run input now m in
  let first := [mkMessage user (Text (userMessage dateContext input))] in
  formatDateContext tz toLocaleDateString now = inr dateContext ->
  exists rounds en,
    svc_log (world (machine_of res)) =
      svc_log (world m) ++ map round_svc rounds ++ end_svc en
    /\ peer_log (world (machine_of res)) =
         peer_log (world m) ++ flat_map round_peer rounds ++ end_peer en
    /\ requests_ok (tools (this m)) first rounds en
    /\ Forall (fun rd =>
                 map tool_use_id (map call_result (rd_calls rd)) =
                 map tu_id (toolUseBlocks (content (rd_response rd)))) rounds
    /\ (forall r fr, outcome_of res = Return r -> locals_of res = Some fr ->
          messages fr = first ++ flat_map round_messages rounds).
Proof.
  intros res first Hd. subst res. unfold process_run. rewrite Hd.
  destruct (agentic_loop_conversation MAX_TURNS
              (initial_frame (userMessage dateContext input)) m)
    as (rounds & en & Hex).
  destruct (agentic_loop MAX_TURNS _) as [out [fr' m']].
  destruct Hex as (Hs & Hp & Hok & Hreq & Hmsg).
  exists rounds, en. unfold machine_of, outcome_of, locals_of. simpl.
  repeat split; auto.
  - eapply Forall_impl; [exact Hok|]. intros rd. apply round_ok_ids.
  - intros r fr Hr Hfr. injection Hfr as <-. exact (Hmsg r Hr).
Qed.

(** X6. What [connect] leaves behind when it returns: the agent holds the new
    client and, as its tools, the descriptors of the tools the peer
    listed, in the peer's order; these are what [connect] returns, and
    every request a later [process] sends carries exactly this tool
    list. *)
Theorem connect_tools_reach_service (m m1 : Machine) ts :
  connect m = (Return ts, m1) ->
  (exists r listed,
     peer_log (world m1) = peer_log (world m) ++ [r; EvListTools (inr listed)]
     /\ ts = map descriptor listed)
  /\ this m1 = mkAgent (mcpServerPath (this m)) (sheetId (this m)) (Some new_client) ts
  /\ forall input now sd,
       svc_log (world (machine_of (process_run input now m1))) =
         svc_log (world m1) ++ sd ->
       forall ev, ev ∈ sd -> req_tools (fst ev) = ts.
Proof.
  unfold connect, bind, modify, gets, await_connect, await_listTools, settle,
    ret, throw. simpl.
  destruct (mcp_connect _ _ _) as [e|[]]; simpl; [discriminate|].
  destruct (mcp_listTools _) as [e|listed]; simpl; [discriminate|].
  intros H. injection H as <- <-. simpl.
  split; [|split; [reflexivity|]].
  - eexists _, listed. rewrite <- app_assoc. split; reflexivity.
  - intros input now sd Hsd ev Hev.
    destruct (formatDateContext tz toLocaleDateString now) as [e|dc] eqn:Hd.
    { rewrite (process_run_invalid input now _ e Hd) in Hsd.
      unfold machine_of in Hsd. simpl in Hsd.
      rewrite <- (app_nil_r (svc_log (world m))) in Hsd at 1.
      apply app_inv_head in Hsd. subst sd. inversion Hev. }
    revert Hsd. unfold process_run. rewrite Hd.
    match goal with
    | |- context [agentic_loop MAX_TURNS (?fr0, ?m0)] =>
        destruct (agentic_loop_conversation MAX_TURNS fr0 m0) as (rounds & en & Hex);
        destruct (agentic_loop MAX_TURNS (fr0, m0)) as [out [fr' m']]
    end.
    destruct Hex as (Hs & _ & _ & Hreq & _).
    unfold machine_of. simpl in *. intros Hsd.
    rewrite Hs in Hsd. apply app_inv_head in Hsd. subst sd.
    exact (proj1 (requests_ok_tools _ _ _ _ Hreq ev Hev)).
Qed.

(** X7. A [connect] that throws, at the handshake or at the tool listing,
    has already stored the new client and has not touched the tool list;
    so the guard of [_callTool] lets later calls through to the peer
    instead of throwing the not-connected error. *)
Theorem connect_failure_keeps_client (m : Machine) e :
  fst (connect m) = Throw e ->
  let m' := snd (connect m) in
  this m' =
    mkAgent (mcpServerPath (this m)) (sheetId (this m)) (Some new_client)
            (tools (this m))
  /\ forall toolName toolInput,
       let r := mcp_callTool (peer_log (world m')) toolName toolInput in
       _callTool toolName toolInput m' =
       (match r with inl err => Throw err | inr v => Return v end,
        log_peer (EvCallTool toolName toolInput r) m').
Proof.
  intros Hthrow m'.
  assert (Hthis : this m' =
            mkAgent (mcpServerPath (this m)) (sheetId (this m)) (Some new_client)
                    (tools (this m))).
  { subst m'. revert Hthrow.
    unfold connect, bind, modify, gets, await_connect, await_listTools, settle,
      ret, throw. simpl.
    destruct (mcp_connect _ _ _) as [e1|[]]; simpl; [reflexivity|].
    destruct (mcp_listTools _) as [e2|listed]; simpl; [reflexivity|discriminate]. }
  split; [exact Hthis|].
  intros toolName toolInput r. rewrite callTool_eq, Hthis. reflexivity.
Qed.

(** X8. [disconnect] touches nothing but the client and the peer: the tool
    list, the paths and the service log stay as they were, so a
    disconnected agent still advertises its old tools. With a client it
    closes the peer exactly once; when that close rejects, the error is
    thrown and the agent keeps its client. *)
Theorem disconnect_effect (m : Machine) :
  let res := disconnect m in
  tools (this (snd res)) = tools (this m)
  /\ mcpServerPath (this (snd res)) = mcpServerPath (this m)
  /\ sheetId (this (snd res)) = sheetId (this m)
  /\ svc_log (world (snd res)) = svc_log (world m)
  /\ process_env (world (snd res)) = process_env (world m)
  /\ match mcpClient (this m) with
     | None => peer_log (world (snd res)) = peer_log (world m)
     | Some c =>
         let r := mcp_close (peer_log (world m)) in
         peer_log (world (snd res)) = peer_log (world m) ++ [EvClose r]
         /\ match r with
            | inl e => fst res = Throw e /\ mcpClient (this (snd res)) = Some c
            | inr _ => fst res = Return tt /\ mcpClient (this (snd res)) = None
            end
     end.
Proof.
  unfold disconnect, bind, gets, await_close, settle, modify, ret, throw.
  destruct (mcpClient (this m)) as [c|] eqn:Hc; simpl.
  - destruct (mcp_close (peer_log (world m))) as [e|[]]; simpl; rewrite ?Hc; auto 10.
  - auto 10.
Qed.

(** X9. [process] reaches the peer through tool calls only: every call a run
    adds to the peer's log is a [callTool], never a connect, a tool
    listing or a close; it never changes the ambient environment; and
    when the date context cannot be built (an invalid [Date]) it throws
    that error without calling the service or the peer. *)
Theorem process_only_calls_tools input now (m : Machine) :
  let res := process_run input now m in
  (exists pd,
     peer_log (world (machine_of res)) = peer_log (world m) ++ pd
     /\ forall ev, ev ∈ pd -> exists name arguments r, ev = EvCallTool name arguments r)
  /\ process_env (world (machine_of res)) = process_env (world m)
  /\ match formatDateContext tz toLocaleDateString now with
     | inl e => process input now m = (Throw e, m)
     | inr _ => True
     end
  /\ fst (process input None m) = Throw (RangeError (lit "Invalid time value")).
Proof.
  intros res. subst res.
  assert (Hnone : fst (process input None m) = Throw (RangeError (lit "Invalid time value"))).
  { unfold process, process_run. reflexivity. }
  destruct (formatDateContext tz toLocaleDateString now) as [e|dc] eqn:Hd.
  { rewrite process_of_run, (process_run_invalid input now m e Hd).
    unfold machine_of, outcome_of. simpl.
    split; [|auto].
    exists []. rewrite app_nil_r. split; [reflexivity|]. intros ev Hev. inversion Hev. }
  destruct (process_run_trace input now m dc Hd)
    as (rounds & en & fr' & m' & Hrun & _ & He & _ & Hp & _).
  rewrite Hrun. unfold machine_of. simpl.
  split; [|auto].
  exists (flat_map round_peer rounds ++ end_peer en). split; [exact Hp|].
  intros ev Hev. rewrite flat_map_round_peer in Hev.
  assert (Hcalls : forall calls : list Call, ev ∈ map call_event calls ->
                   exists name arguments r, ev = EvCallTool name arguments r).
  { intros calls Hc. apply list_elem_of_fmap in Hc as (c & -> & _).
    unfold call_event. eauto. }
  apply elem_of_app in Hev as [Hev|Hev]; [exact (Hcalls _ Hev)|].
  destruct en as [req resp| |req e|req resp calls u cause]; simpl in Hev;
    try (inversion Hev; fail).
  apply elem_of_app in Hev as [Hev|Hev]; [exact (Hcalls _ Hev)|].
  destruct cause as [e|]; simpl in Hev; [|inversion Hev].
  apply list_elem_of_singleton in Hev. subst ev. eauto.
Qed.

(* --------------------------------------------------------------------- *)
(** ** index.js: the command line *)
(* --------------------------------------------------------------------- *)

Section Cli.

(** [new Anthropic()] in the constructor of the agent, which reads the
    ambient environment and may throw; and
    [resolve(homedir(), 'liferhythm-mcp')]. *)
Variable new_Anthropic : gmap jsstring jsstring -> JsError + unit.
Variable home_mcp_path : jsstring.

(** The module constants [SHEET_ID] and [MCP_SERVER_PATH] of agent.js,
    the defaults of the constructor. *)
Definition SHEET_ID (penv : gmap jsstring jsstring) : jsstring :=
  or_else (penv !! lit "LIFERHYTHM_SHEET_ID")
          (lit "1XJ5oA-FjBx7P_bn-gM2qL_Y5rXYFbFhSsw74ejyph-E").

Definition MCP_SERVER_PATH (penv : gmap jsstring jsstring) : jsstring :=
  or_else (penv !! lit "MCP_SERVER_PATH") home_mcp_path.

(** The agent [main] creates: an option of index.js that is unset or
    empty is not passed, which leaves the default of the constructor. *)
Definition new_agent (penv : gmap jsstring jsstring) : AgentObj :=
  constructor (or_else (penv !! lit "MCP_SERVER_PATH") (MCP_SERVER_PATH penv))
              (or_else (penv !! lit "SHEET_ID") (SHEET_ID penv)).

(** What was printed: the arguments of [console.log], and those of
    [console.error], a text or an error handed over as it is. *)
Inductive Printed :=
| Line (s : jsstring)
| Inspected (e : JsError).

Record Terminal := mkTerminal {
  stdout : list jsstring;
  stderr : list Printed }.

Definition console_log (s : jsstring) (t : Terminal) : Terminal :=
  mkTerminal (stdout t ++ [s]) (stderr t).
Definition console_error (x : Printed) (t : Terminal) : Terminal :=
  mkTerminal (stdout t) (stderr t ++ [x]).

(** How [main] ends: it returns, [process.exit(code)] is called, or it
    hands over to [runInteractive]. *)
Inductive Status :=
| Returned
| Exited (code : Z)
| Interactive.

Record Run := mkRun {
  status : Status;
  terminal : Terminal;
  machine : option Machine }.

(** [args.includes('--interactive') || args.includes('-i')] *)
Definition parse_interactive (argv : list jsstring) : bool :=
  bool_decide (lit "--interactive" ∈ argv) || bool_decide (lit "-i" ∈ argv).

(** [args.filter(a => !a.startsWith('-')).join(' ')] *)
Definition parse_input (argv : list jsstring) : jsstring :=
  join (lit " ") (filter (fun a => starts_with (lit "-") a = false) argv).

Definition usage : jsstring :=
  join [10%N]
    [ [];
      lit "Usage:";
      lit "  node index.js " ++ [34%N] ++ lit "your natural language update" ++ [34%N];
      lit "  node index.js --interactive";
      [];
      lit "Examples:";
      lit "  node index.js " ++ [34%N]
        ++ lit "I called for garbage tags Monday, remind me in 7-10 days if they don't arrive"
        ++ [34%N];
      lit "  node index.js " ++ [34%N] ++ lit "Paid hydro bill today" ++ [34%N];
      lit "  node index.js --interactive";
      [];
      lit "Environment variables:";
      lit "  MCP_SERVER_PATH   Path to liferhythm-mcp directory (default: ~/liferhythm-mcp)";
      lit "  SHEET_ID          Google Sheets ID (default: built-in)";
      lit "  ANTHROPIC_API_KEY Your Anthropic API key (required)";
      [] ].

Definition printUsage (t : Terminal) : Terminal := console_log usage t.

(** [runSingle(agent, input)], at a moment the clock reads [now]; the
    code is that of [process.exit], when it is called. *)
Definition runSingle (input : jsstring) (now : Z) (t : Terminal) (m : Machine)
  : option Z * Terminal * Machine :=
  let t1 := console_log (lit "> " ++ input ++ [10%N]) t in
  match process input (Some now) m with
  | (Return r, m') =>
      let t2 :=
        if (0 <? length (actions r))%nat
        then console_log (lit "[Actions taken: "
                            ++ join (lit ", ") (map tool (actions r)) ++ lit "]") t1
        else t1 in
      (None, console_log (response r) t2, m')
  | (Throw e, m') =>
      (Some 1, console_error (Line (lit "Error: " ++ err_message e)) t1, m')
  end.

(** [main()] with its [catch] handler, up to the call of
    [runInteractive]; [argv] is [process.argv.slice(2)]. *)
Definition main (argv : list jsstring) (now : Z) (w : World) (t : Terminal) : Run :=
  let interactive := parse_interactive argv in
  let input := parse_input argv in
  match new_Anthropic (process_env w) with
  | inl e => mkRun (Exited 1) (console_error (Inspected e) t) None
  | inr _ =>
      let m := mkMachine (new_agent (process_env w)) w in
      let t1 := console_log (lit "LifeRhythm Agent connecting...") t in
      match connect m with
      | (Throw e, m1) =>
          mkRun (Exited 1)
            (console_error
               (Line (lit "Make sure ~/liferhythm-mcp/ exists and has a working index.js"))
               (console_error
                  (Line (lit "Failed to connect to MCP server: " ++ err_message e)) t1))
            (Some m1)
      | (Return ts, m1) =>
          let t2 :=
            console_log (lit "Connected. " ++ decimal (Z.of_nat (length ts))
                           ++ lit " tool(s) available: "
                           ++ join (lit ", ") (map tool_name ts) ++ [10%N]) t1 in
          if interactive then mkRun Interactive t2 (Some m1)
          else
            match input with
            | _ :: _ =>
                match runSingle input now t2 m1 with
                | (Some code, t3, m2) => mkRun (Exited code) t3 (Some m2)
                | (None, t3, m2) =>
                    match disconnect m2 with
                    | (Return _, m3) => mkRun Returned t3 (Some m3)
                    | (Throw e, m3) =>
                        mkRun (Exited 1) (console_error (Inspected e) t3) (Some m3)
                    end
                end
            | [] =>
                let t3 := printUsage t2 in
                match disconnect m1 with
                | (Return _, m2) => mkRun (Exited 1) t3 (Some m2)
                | (Throw e, m2) =>
                    mkRun (Exited 1) (console_error (Inspected e) t3) (Some m2)
                end
            end
      end
  end.

(** What [process] and [disconnect] leave of the agent and of the logs. *)
Lemma process_grows input now (m : Machine) :
  let m' := snd (process input now m) in
  this m' = this m
  /\ (exists sd, svc_log (world m') = svc_log (world m) ++ sd)
  /\ (exists pd, peer_log (world m') = peer_log (world m) ++ pd).
Proof.
  cbn zeta. rewrite process_of_run. cbn [snd].
  destruct (formatDateContext tz toLocaleDateString now) as [e|dc] eqn:Hd.
  - rewrite (process_run_invalid input now m e Hd). unfold machine_of. simpl.
    split; [reflexivity|]. split; exists []; rewrite app_nil_r; reflexivity.
  - destruct (process_run_trace input now m dc Hd)
      as (rounds & en & fr' & m' & Hrun & Ht & _ & Hs & Hp & _).
    rewrite Hrun. unfold machine_of. simpl. eauto.
Qed.

Lemma disconnect_grows (m : Machine) :
  let m' := snd (disconnect m) in
  svc_log (world m') = svc_log (world m)
  /\ (exists pd, peer_log (world m') = peer_log (world m) ++ pd)
  /\ (fst (disconnect m) = Return tt -> mcpClient (this m') = None).
Proof.
  unfold disconnect, bind, gets, await_close, settle, modify, ret, throw.
  destruct (mcpClient (this m)) as [c|] eqn:Hc; simpl.
  - destruct (mcp_close (peer_log (world m))) as [e|[]]; simpl;
      (split; [reflexivity|split; [eauto|]]); [discriminate|reflexivity].
  - split; [reflexivity|]. split; [exists []; rewrite app_nil_r; reflexivity|auto].
Qed.

Lemma connect_svc (m : Machine) :
  svc_log (world (snd (connect m))) = svc_log (world m).
Proof.
  unfold connect, bind, modify, gets, await_connect, await_listTools, settle,
    ret, throw. simpl.
  destruct (mcp_connect _ _ _) as [e|[]]; simpl; [reflexivity|].
  destruct (mcp_listTools _) as [e|listed]; reflexivity.
Qed.

Lemma or_else_twice a b : or_else a (or_else a b) = or_else a b.
Proof. destruct a as [[|c s]|]; reflexivity. Qed.

(** X10. The child process the command line starts: once the agent is
    created, the first thing asked of the peer, whatever the arguments,
    is to start [node index.js] in the directory [MCP_SERVER_PATH] names
    (the directory under the home directory when it is unset or empty),
    with [LIFERHYTHM_SHEET_ID] set to [SHEET_ID] when that is set and not
    empty, else to the ambient [LIFERHYTHM_SHEET_ID] when that is set
    and not empty, else to the built-in sheet. *)
Theorem main_child_process argv now (w : World) (t : Terminal) :
  new_Anthropic (process_env w) = inr tt ->
  let penv := process_env w in
  exists m tr r rest,
    machine (main argv now w t) = Some m
    /\ peer_log (world m) = peer_log w ++ EvConnect new_client tr r :: rest
    /\ command tr = lit "node" /\ args tr = [lit "index.js"]
    /\ cwd tr = or_else (penv !! lit "MCP_SERVER_PATH") home_mcp_path
    /\ env tr !! lit "LIFERHYTHM_SHEET_ID" =
         Some (Some (or_else (penv !! lit "SHEET_ID")
                       (or_else (penv !! lit "LIFERHYTHM_SHEET_ID")
                          (lit "1XJ5oA-FjBx7P_bn-gM2qL_Y5rXYFbFhSsw74ejyph-E")))).
Proof.
  intros Hnew penv. unfold main. rewrite Hnew.
  set (m0 := mkMachine (new_agent (process_env w)) w).
  destruct (connect_transport m0) as (r & rest & Hlog).
  set (tr := mkTransport _ _ _ _) in Hlog.
  assert (Htr : command tr = lit "node" /\ args tr = [lit "index.js"]
                /\ cwd tr = or_else (penv !! lit "MCP_SERVER_PATH") home_mcp_path
                /\ env tr !! lit "LIFERHYTHM_SHEET_ID" =
                     Some (Some (or_else (penv !! lit "SHEET_ID")
                       (or_else (penv !! lit "LIFERHYTHM_SHEET_ID")
                          (lit "1XJ5oA-FjBx7P_bn-gM2qL_Y5rXYFbFhSsw74ejyph-E"))))).
  { subst tr. cbn [command args cwd env]. split; [reflexivity|]. split; [reflexivity|].
    split.
    - subst m0. cbn [this mcpServerPath new_agent constructor]. unfold MCP_SERVER_PATH.
      apply or_else_twice.
    - rewrite mcpEnv_lookup.
      rewrite decide_False by (intros H; vm_compute in H; discriminate H).
      rewrite decide_True by reflexivity. reflexivity. }
  assert (Hgrow : forall m' : Machine,
            (exists pd, peer_log (world m') = peer_log (world (snd (connect m0))) ++ pd) ->
            exists m tr r rest,
              Some m' = Some m
              /\ peer_log (world m) = peer_log w ++ EvConnect new_client tr r :: rest
              /\ command tr = lit "node" /\ args tr = [lit "index.js"]
              /\ cwd tr = or_else (penv !! lit "MCP_SERVER_PATH") home_mcp_path
              /\ env tr !! lit "LIFERHYTHM_SHEET_ID" =
                   Some (Some (or_else (penv !! lit "SHEET_ID")
                     (or_else (penv !! lit "LIFERHYTHM_SHEET_ID")
                        (lit "1XJ5oA-FjBx7P_bn-gM2qL_Y5rXYFbFhSsw74ejyph-E"))))).
  { intros m' [pd Hpd]. exists m', tr, r, (rest ++ pd).
    split; [reflexivity|]. split; [|exact Htr].
    rewrite Hpd, Hlog. rewrite <- app_assoc. reflexivity. }
  assert (Hself : exists pd, peer_log (world (snd (connect m0)))
                             = peer_log (world (snd (connect m0))) ++ pd).
  { exists []. rewrite app_nil_r. reflexivity. }
  destruct (connect m0) as [[ts|e] m1]; cbn [snd] in *; [|apply Hgrow, Hself].
  destruct (parse_interactive argv); [apply Hgrow, Hself|].
  destruct (parse_input argv) as [|c input].
  - pose proof (disconnect_grows m1) as (_ & Hd & _).
    destruct (disconnect m1) as [[[]|e] m2]; cbn [snd] in *; apply Hgrow, Hd.
  - unfold runSingle.
    pose proof (process_grows (c :: input) (Some now) m1) as (_ & _ & [pd Hp]).
    destruct (process (c :: input) (Some now) m1) as [[res|e] m2]; cbn [snd] in *.
    + pose proof (disconnect_grows m2) as (_ & [pd' Hd] & _).
      destruct (disconnect m2) as [[[]|e] m3]; cbn [snd] in *; apply Hgrow;
        exists (pd ++ pd'); rewrite Hd, Hp, <- app_assoc; reflexivity.
    + apply Hgrow. eauto.
Qed.

(** X11. What the way [main] ends says about the run. It returns only when
    the update was processed and the connection closed: the arguments
    held no interactive flag and their text (the arguments that do not
    start with a dash, joined by spaces) is not empty, [process] returned
    on that text, its
    response is the last line printed, and the agent is left without a
    client. Every exit it takes itself has code 1. It hands over to the
    interactive mode only when a flag asks for it, and then no request
    has gone to the decision service. *)
Theorem main_status argv now (w : World) (t : Terminal) :
  let run := main argv now w t in
  match status run with
  | Returned =>
      parse_interactive argv = false
      /\ parse_input argv <> []
      /\ exists ts m1 r m2 m3,
           connect (mkMachine (new_agent (process_env w)) w) = (Return ts, m1)
           /\ process (parse_input argv) (Some now) m1 = (Return r, m2)
           /\ disconnect m2 = (Return tt, m3)
           /\ machine run = Some m3
           /\ mcpClient (this m3) = None
           /\ last (stdout (terminal run)) = Some (response r)
           /\ stderr (terminal run) = stderr t
  | Exited code => code = 1
  | Interactive =>
      parse_interactive argv = true
      /\ exists m, machine run = Some m /\ svc_log (world m) = svc_log w
  end.
Proof.
  cbn zeta. unfold main.
  destruct (new_Anthropic (process_env w)) as [e|[]]; [reflexivity|].
  set (m0 := mkMachine (new_agent (process_env w)) w).
  pose proof (connect_svc m0) as Hsvc.
  destruct (connect m0) as [[ts|e] m1] eqn:Hconn; cbn [snd] in *; [|reflexivity].
  destruct (parse_interactive argv) eqn:Hi.
  { cbn [status machine]. split; [reflexivity|]. exists m1. split; [reflexivity|exact Hsvc]. }
  destruct (parse_input argv) as [|c input] eqn:Hin.
  { destruct (disconnect m1) as [[[]|e] m2]; reflexivity. }
  unfold runSingle.
  destruct (process (c :: input) (Some now) m1) as [[r|e] m2] eqn:Hproc; [|reflexivity].
  pose proof (disconnect_grows m2) as (_ & _ & Hnone).
  destruct (disconnect m2) as [[[]|e] m3] eqn:Hdisc; cbn [fst snd] in *; [|reflexivity].
  cbn [status machine terminal]. split; [reflexivity|]. split; [discriminate|].
  exists ts, m1, r, m2, m3. repeat split; auto.
  - unfold console_log. cbn [stdout]. apply last_snoc.
  - destruct (0 <? length (actions r))%nat; reflexivity.
Qed.

End Cli.

End Model.
End Agent.
















(* ===================================================================== *)
(** * app.js: the history behind the chart *)
(* ===================================================================== *)

Module Widget.

Section Chart.

(** JavaScript numbers (the rates); [updateChart] only copies them. *)
Variable number : Type.
Variable zero : number.

(** An entry of [historicalData]. *)
Record DataPoint := mkPoint {
  time : jsstring;
  rate : number }.

(** The part of a Chart.js chart the widget writes: [chart.data] and the
    number of [chart.update()] calls. *)
Record Dataset := mkDataset {
  label : jsstring;
  data : list number }.

Record Chart := mkChart {
  labels : list jsstring;
  datasets : list Dataset;
  updates : nat }.

(** The module's variables. *)
Record State := mkState {
  currentRate : number;
  previousRate : number;
  chart : option Chart;
  historicalData : list DataPoint }.

(** The state the script starts in. *)
Definition initial : State := mkState zero zero None [].

(** [initChart(ctx)] *)
Definition initChart (s : State) : State :=
  mkState (currentRate s) (previousRate s)
    (Some (mkChart [] [mkDataset (lit "USD/CAD") []] 0))
    (historicalData s).

(** The two assignments of [fetchRate] on a new quote [cad]. *)
Definition setRate (cad : number) (s : State) : State :=
  mkState cad (currentRate s) (chart s) (historicalData s).

(** [updateChart()], at a moment the clock prints as [timeLabel]. The
    writes to [chart.data] throw when there is no chart, or no first
    dataset; the history is updated before them. *)
Definition updateChart (timeLabel : jsstring) : M State unit :=
  fun s =>
    let pushed := historicalData s ++ [mkPoint timeLabel (currentRate s)] in
    let kept := if (20 <? length pushed)%nat then tail pushed else pushed in
    let s1 c := mkState (currentRate s) (previousRate s) c kept in
    match chart s with
    | None =>
        (Throw (TypeError (lit "Cannot read properties of null (reading 'data')")),
         s1 None)
    | Some c =>
        match datasets c with
        | [] =>
            (Throw (TypeError
               (lit "Cannot set properties of undefined (setting 'data')")),
             s1 (Some (mkChart (map time kept) [] (updates c))))
        | d :: ds =>
            (Return tt,
             s1 (Some (mkChart (map time kept)
                         (mkDataset (label d) (map rate kept) :: ds)
                         (S (updates c)))))
        end
    end.

(** What the page does to the module's variables. *)
Inductive Call :=
| CallInitChart
| CallSetRate (cad : number)
| CallUpdateChart (timeLabel : jsstring).

Definition step (s : State) (c : Call) : State :=
  match c with
  | CallInitChart => initChart s
  | CallSetRate cad => setRate cad s
  | CallUpdateChart timeLabel => snd (updateChart timeLabel s)
  end.

(** The state after a sequence of calls, from the initial state. *)
Definition run (calls : list Call) : State := fold_left step calls initial.

(** What holds between calls. *)
Definition invariant (s : State) : Prop :=
  (length (historicalData s) <= 20)%nat
  /\ forall c, chart s = Some c -> datasets c <> [].

Lemma updateChart_history timeLabel (s : State) :
  historicalData (snd (updateChart timeLabel s)) =
  let pushed := historicalData s ++ [mkPoint timeLabel (currentRate s)] in
  if (20 <? length pushed)%nat then tail pushed else pushed.
Proof.
  unfold updateChart. destruct (chart s) as [c|]; [|reflexivity].
  destruct (datasets c); reflexivity.
Qed.

Lemma step_invariant (s : State) c : invariant s -> invariant (step s c).
Proof.
  intros [Hlen Hds]. destruct c as [|cad|timeLabel]; simpl.
  - split; [exact Hlen|]. intros c Hc. injection Hc as <-. discriminate.
  - split; [exact Hlen|exact Hds].
  - split.
    + rewrite updateChart_history. cbn zeta.
      destruct (20 <? _)%nat eqn:Hlt.
      * destruct (historicalData s) as [|q h]; [simpl; lia|].
        cbn [app tail]. rewrite length_app. cbn [length] in *. lia.
      * apply Nat.ltb_ge in Hlt. exact Hlt.
    + unfold updateChart. destruct (chart s) as [c0|] eqn:Hc; [|discriminate].
      destruct (datasets c0) as [|d ds] eqn:Hd.
      * destruct (Hds c0 eq_refl Hd).
      * simpl. intros c Hc'. injection Hc' as <-. discriminate.
Qed.

Lemma run_invariant calls : invariant (run calls).
Proof.
  unfold run. induction calls as [|c calls IH] using rev_ind.
  - split; [simpl; lia|discriminate].
  - rewrite fold_left_app. simpl. apply step_invariant, IH.
Qed.

(** C10. After every call to [updateChart], made in any state the page
    can reach from its initial state, [historicalData] has at most 20
    entries: the new point is appended, and when that makes 21 the oldest
    entry is removed, so the newest point is kept and the others stay in
    their order; and when a chart exists, its labels and the data of its
    first dataset are the times and the rates of [historicalData]. *)
Theorem updateChart_keeps_last_20 (calls : list Call) timeLabel :
  let s := run calls in
  let res := updateChart timeLabel s in
  let p := mkPoint timeLabel (currentRate s) in
  let h := historicalData s in
  let h' := historicalData (snd res) in
  (length h' <= 20)%nat
  /\ h' = (if (length h <? 20)%nat then h ++ [p] else tail h ++ [p])
  /\ last h' = Some p
  /\ (forall c, chart s = Some c ->
        fst res = Return tt
        /\ exists c' d ds,
             chart (snd res) = Some c'
             /\ labels c' = map time h'
             /\ datasets c' = d :: ds
             /\ data d = map rate h').
Proof.
  intros s res p h h'. subst res h'.
  destruct (run_invariant calls) as [Hlen Hds]. fold s in Hlen, Hds. fold h in Hlen.
  assert (Hh : historicalData (snd (updateChart timeLabel s)) =
               (if (length h <? 20)%nat then h ++ [p] else tail h ++ [p])).
  { rewrite updateChart_history. cbn zeta. fold h p. rewrite length_app. simpl.
    destruct (length h <? 20)%nat eqn:Hlt.
    - apply Nat.ltb_lt in Hlt.
      destruct (20 <? length h + 1)%nat eqn:Hgt; [|reflexivity].
      apply Nat.ltb_lt in Hgt. lia.
    - apply Nat.ltb_ge in Hlt.
      destruct (20 <? length h + 1)%nat eqn:Hgt.
      + destruct h; [simpl in Hlt; lia|reflexivity].
      + apply Nat.ltb_ge in Hgt. lia. }
  split; [|split; [exact Hh|split]].
  - exact (proj1 (step_invariant s (CallUpdateChart timeLabel) (conj Hlen Hds))).
  - rewrite Hh. destruct (length h <? 20)%nat; apply last_snoc.
  - intros c Hc. unfold updateChart. rewrite Hc.
    destruct (datasets c) as [|d ds] eqn:Hd; [destruct (Hds c Hc Hd)|].
    simpl. split; [reflexivity|]. eauto 10.
Qed.

(** ** The history as a window over the quotes *)

(** The points [updateChart] pushes during a sequence of calls, in the
    order pushed, when the current rate is [cur] at the start. *)
Fixpoint points_from (cur : number) (calls : list Call) : list DataPoint :=
  match calls with
  | [] => []
  | CallInitChart :: rest => points_from cur rest
  | CallSetRate cad :: rest => points_from cad rest
  | CallUpdateChart timeLabel :: rest => mkPoint timeLabel cur :: points_from cur rest
  end.

(** The last [n] elements of a list. *)
Definition lastn {A} (n : nat) (l : list A) : list A := drop (length l - n) l.

Lemma lastn_short {A} n (l : list A) : (length l <= n)%nat -> lastn n l = l.
Proof.
  intros H. unfold lastn. replace (length l - n)%nat with 0%nat by lia. reflexivity.
Qed.

Lemma lastn_length {A} n (l : list A) : (length (lastn n l) <= n)%nat.
Proof. unfold lastn. rewrite length_drop. lia. Qed.

Lemma lastn_app_lastn {A} n (a b : list A) :
  lastn n (lastn n a ++ b) = lastn n (a ++ b).
Proof.
  destruct (Nat.le_gt_cases (length a) n) as [Hle|Hgt].
  - rewrite (lastn_short n a Hle). reflexivity.
  - unfold lastn. rewrite !length_app, length_drop.
    rewrite !drop_app, length_drop, drop_drop.
    f_equal; f_equal; lia.
Qed.

Lemma updateChart_lastn timeLabel (s : State) :
  (length (historicalData s) <= 20)%nat ->
  historicalData (snd (updateChart timeLabel s)) =
  lastn 20 (historicalData s ++ [mkPoint timeLabel (currentRate s)]).
Proof.
  intros Hlen. rewrite updateChart_history. cbn zeta.
  set (pushed := historicalData s ++ _).
  assert (Hp : length pushed = S (length (historicalData s))).
  { subst pushed. rewrite length_app. simpl. lia. }
  destruct (20 <? length pushed)%nat eqn:Hlt.
  - apply Nat.ltb_lt in Hlt. unfold lastn.
    replace (length pushed - 20)%nat with 1%nat by lia.
    destruct pushed; reflexivity.
  - apply Nat.ltb_ge in Hlt. rewrite lastn_short by lia. reflexivity.
Qed.

Lemma updateChart_rate timeLabel (s : State) :
  currentRate (snd (updateChart timeLabel s)) = currentRate s.
Proof.
  unfold updateChart. destruct (chart s) as [c|]; [|reflexivity].
  destruct (datasets c); reflexivity.
Qed.

Lemma fold_step_window calls :
  forall s : State,
  (length (historicalData s) <= 20)%nat ->
  historicalData (fold_left step calls s) =
  lastn 20 (historicalData s ++ points_from (currentRate s) calls).
Proof.
  induction calls as [|c calls IH]; intros s Hlen.
  - simpl. rewrite app_nil_r, lastn_short by exact Hlen. reflexivity.
  - cbn [fold_left]. destruct c as [|cad|timeLabel]; cbn [step points_from].
    + rewrite IH by exact Hlen. reflexivity.
    + rewrite IH by exact Hlen. reflexivity.
    + rewrite IH.
      * rewrite updateChart_rate, updateChart_lastn by exact Hlen.
        rewrite lastn_app_lastn, <- app_assoc. reflexivity.
      * rewrite updateChart_lastn by exact Hlen. apply lastn_length.
Qed.

(** X12. Whatever the page has called since it was loaded, [historicalData]
    is the last 20 of the points pushed so far, oldest first: the window
    slides, it is never reordered and never drops a recent point. *)
Theorem history_is_last_20 (calls : list Call) :
  historicalData (run calls) = lastn 20 (points_from zero calls).
Proof.
  unfold run. rewrite fold_step_window; [reflexivity|simpl; lia].
Qed.

Lemma updateChart_last timeLabel (s : State) :
  last (historicalData (snd (updateChart timeLabel s))) =
  Some (mkPoint timeLabel (currentRate s)).
Proof.
  rewrite updateChart_history. cbn zeta.
  destruct (20 <? _)%nat eqn:Hlt; [|apply last_snoc].
  destruct (historicalData s) as [|q h]; [discriminate Hlt|].
  cbn [app tail]. apply last_snoc.
Qed.

(** X13. A call of [updateChart] removes at most one entry: a history that
    has grown past 20 entries (through the state hook of the tests) is
    never brought back to 20, it keeps its length; a shorter one grows
    by one up to 20. The new point is always the last entry. *)
Theorem updateChart_shifts_once timeLabel (s : State) :
  let h := historicalData s in
  let h' := historicalData (snd (updateChart timeLabel s)) in
  length h' = (if (length h <? 20)%nat then S (length h) else length h)
  /\ last h' = Some (mkPoint timeLabel (currentRate s))
  /\ ((20 < length h)%nat -> (20 < length h')%nat).
Proof.
  intros h h'. subst h'. rewrite updateChart_history. cbn zeta. fold h.
  set (p := mkPoint timeLabel (currentRate s)).
  assert (Hp : length (h ++ [p]) = S (length h)) by (rewrite length_app; simpl; lia).
  rewrite Hp.
  destruct (20 <? S (length h))%nat eqn:Hlt.
  - apply Nat.ltb_lt in Hlt.
    replace (length h <? 20)%nat with false by (symmetry; apply Nat.ltb_ge; lia).
    destruct h as [|q h0]; [simpl in Hlt; lia|].
    cbn [app tail]. rewrite length_app, last_snoc. simpl. repeat split; lia.
  - apply Nat.ltb_ge in Hlt.
    replace (length h <? 20)%nat with true by (symmetry; apply Nat.ltb_lt; lia).
    rewrite last_snoc. repeat split; lia.
Qed.

(** Without a chart ([initChart] not called yet) [updateChart] throws a
    [TypeError], but only after it has recorded the point: the history
    has changed although the call failed, and the chart is still
    absent. *)
Lemma updateChart_without_chart timeLabel (s : State) :
  chart s = None ->
  let res := updateChart timeLabel s in
  (exists msg, fst res = Throw (TypeError msg))
  /\ chart (snd res) = None
  /\ last (historicalData (snd res)) = Some (mkPoint timeLabel (currentRate s))
  /\ currentRate (snd res) = currentRate s
  /\ previousRate (snd res) = previousRate s.
Proof.
  intros Hc res. subst res.
  split; [|split; [|split; [apply updateChart_last|]]].
  - unfold updateChart. rewrite Hc. eauto.
  - unfold updateChart. rewrite Hc. reflexivity.
  - unfold updateChart. rewrite Hc. split; reflexivity.
Qed.

(** ** The page: fetchRate, updateDisplay and updateConverter *)

Local Open Scope js_scope.

(** The rate variables hold what a reply gave for [rates.CAD]: a number,
    or another value of a JSON reply ([undefined] for a missing key);
    [number] stands for all of these here. The operators [-], [*], [/],
    [+], [>], [<] and truthiness ([x || 0]) coerce such values and do not
    throw; the method call [x.toFixed(d)] throws a [TypeError] when [x]
    is not a number. [parseFloat] and the literals [1], [100] and [0.01]
    are as in the language. *)
Variable num_sub num_mul num_div num_add : number -> number -> number.
Variable num_gt num_lt : number -> number -> bool.
Variable toFixed : number -> nat -> JsError + jsstring.
Variable parseFloat : jsstring -> number.
Variable truthy : number -> bool.
Variable one hundred variance : number.

(** What an [input] element keeps of a string assigned to its [value]
    (the value sanitization of its type). *)
Variable sanitize : jsstring -> jsstring.

(** The part of an element the page reads and writes: its text, its
    class list (the tokens of the class attribute, in their order), its
    value, and the number of [input] listeners added to it. *)
Record Element := mkElement {
  textContent : jsstring;
  classes : list jsstring;
  value : jsstring;
  inputListeners : nat }.

(** The module's variables, the document by element id, and what was
    shown with [alert] and [console.error]. *)
Record Page := mkPage {
  vars : State;
  dom : gmap jsstring Element;
  alerts : list jsstring;
  console_errors : list JsError }.

Definition set_text (s : jsstring) (e : Element) : Element :=
  mkElement s (classes e) (value e) (inputListeners e).
Definition set_classes (cs : list jsstring) (e : Element) : Element :=
  mkElement (textContent e) cs (value e) (inputListeners e).
Definition set_value (v : jsstring) (e : Element) : Element :=
  mkElement (textContent e) (classes e) (sanitize v) (inputListeners e).
Definition add_listener (e : Element) : Element :=
  mkElement (textContent e) (classes e) (value e) (S (inputListeners e)).

(** [classList.add(x)] and [classList.remove(x)] on the tokens. *)
Definition add_class (x : jsstring) (cs : list jsstring) : list jsstring :=
  if bool_decide (x ∈ cs) then cs else cs ++ [x].
Definition remove_class (x : jsstring) (cs : list jsstring) : list jsstring :=
  filter (fun c => c <> x) cs.

Definition set_dom (d : gmap jsstring Element) (p : Page) : Page :=
  mkPage (vars p) d (alerts p) (console_errors p).
Definition set_vars (v : State) (p : Page) : Page :=
  mkPage v (dom p) (alerts p) (console_errors p).

(** The [TypeError] of reading or setting the property [prop] of
    [document.getElementById(id)] when it is null. *)
Definition null_read (prop : string) : JsError :=
  TypeError (lit "Cannot read properties of null (reading '" ++ lit prop ++ lit "')").
Definition null_set (prop : string) : JsError :=
  TypeError (lit "Cannot set properties of null (setting '" ++ lit prop ++ lit "')").

(** A relation between the page before and after that a computation
    keeps, whether it returns or throws. *)
Definition preserves {A} (R : Page -> Page -> Prop) (c : M Page A) : Prop :=
  forall p, R p (snd (c p)).

(** The element [k] is left as it is (or absent). *)
Definition same_element (k : jsstring) (p p' : Page) : Prop :=
  dom p' !! k = dom p !! k.

(** The rates are left as they are. *)
Definition same_rates (p p' : Page) : Prop :=
  currentRate (vars p') = currentRate (vars p)
  /\ previousRate (vars p') = previousRate (vars p).

(** Nothing is shown with [alert] or [console.error]. *)
Definition same_messages (p p' : Page) : Prop :=
  alerts p' = alerts p /\ console_errors p' = console_errors p.

(** The elements that exist stay, and no element appears. *)
Definition same_ids (p p' : Page) : Prop :=
  forall k, is_Some (dom p' !! k) <-> is_Some (dom p !! k).

(** [document.getElementById(id).prop = ...] and the like: change the
    element, or throw [null] when there is none. *)
Definition on_element (id : jsstring) (null : JsError) (f : Element -> Element)
  : M Page unit :=
  fun p =>
    match dom p !! id with
    | Some e => (Return tt, set_dom (<[id := f e]> (dom p)) p)
    | None => (Throw null, p)
    end.

(** The result of a method call that may throw. *)
Definition called {A} (r : JsError + A) : M Page A :=
  match r with
  | inl e => throw e
  | inr a => ret a
  end.

(** Run a computation on the module's variables. *)
Definition on_vars {A} (c : M State A) : M Page A :=
  fun p => let '(o, v) := c (vars p) in (o, set_vars v p).

(** [updateDisplay()]. The right-hand side of an assignment is
    evaluated before the store, so a [toFixed] that throws comes before
    the [TypeError] of a missing element. *)
Definition updateDisplay : M Page unit :=
  cur <- gets (fun p => currentRate (vars p)) ;;
  prev <- gets (fun p => previousRate (vars p)) ;;
  shown <- called (toFixed cur 4) ;;
  on_element (lit "currentRate") (null_set "textContent") (set_text shown) ;;
  (if num_gt prev zero then
     let change := num_sub cur prev in
     changePercent <- called (toFixed (num_mul (num_div change prev) hundred) 2) ;;
     if num_gt change zero then
       on_element (lit "changeDisplay") (null_set "className")
         (set_classes [lit "change"; lit "positive"]) ;;
       by4 <- called (toFixed change 4) ;;
       on_element (lit "changeDisplay") (null_set "textContent")
         (set_text ([9650%N] ++ lit " +" ++ by4 ++ lit " (+" ++ changePercent ++ lit "%)"))
     else if num_lt change zero then
       on_element (lit "changeDisplay") (null_set "className")
         (set_classes [lit "change"; lit "negative"]) ;;
       by4 <- called (toFixed change 4) ;;
       on_element (lit "changeDisplay") (null_set "textContent")
         (set_text ([9660%N] ++ lit " " ++ by4 ++ lit " (" ++ changePercent ++ lit "%)"))
     else
       on_element (lit "changeDisplay") (null_set "className")
         (set_classes [lit "change"]) ;;
       on_element (lit "changeDisplay") (null_set "textContent")
         (set_text ([8212%N] ++ lit " No change"))
   else ret tt) ;;
  high <- called (toFixed (num_mul cur (num_add one variance)) 4) ;;
  on_element (lit "high24h") (null_set "textContent") (set_text high) ;;
  low <- called (toFixed (num_mul cur (num_sub one variance)) 4) ;;
  on_element (lit "low24h") (null_set "textContent") (set_text low).

(** [updateConverter()]; the last branch is not reached, [usdInput]
    exists once a listener was added to it. *)
Definition updateConverter : M Page unit :=
  cur <- gets (fun p => currentRate (vars p)) ;;
  on_element (lit "usdInput") (null_read "addEventListener") add_listener ;;
  usd <- gets (fun p => dom p !! lit "usdInput") ;;
  match usd with
  | Some u =>
      converted <- called (toFixed (num_mul (parseFloat (value u)) cur) 2) ;;
      on_element (lit "cadInput") (null_set "value") (set_value converted)
  | None => throw (null_read "value")
  end.

(** One run of the listener [updateConverter] adds: when [toFixed]
    throws or there is no [cadInput] it throws, which leaves the page as
    it is. *)
Definition input_listener (p : Page) : Page :=
  match dom p !! lit "usdInput" with
  | Some u =>
      let parsed := parseFloat (value u) in
      let usd := if truthy parsed then parsed else zero in
      match toFixed (num_mul usd (currentRate (vars p))) 2 with
      | inr converted =>
          snd (on_element (lit "cadInput") (null_set "value") (set_value converted) p)
      | inl _ => p
      end
  | None => p
  end.

(** An [input] event on [usdInput]: every listener added so far runs. *)
Definition dispatch_input (p : Page) : Page :=
  match dom p !! lit "usdInput" with
  | Some u => Nat.iter (inputListeners u) input_listener p
  | None => p
  end.

Definition fetch_failed : jsstring :=
  lit "Failed to fetch exchange rate. Please try again.".

(** What the request gave: [fetch] or [response.json()] failed; or the
    reply was there but reading [data.rates.CAD] threw; or a value was
    read. *)
Inductive Reply :=
| Failed (e : JsError)
| Unreadable (e : JsError)
| Quoted (cad : number).

(** [previousRate = currentRate], the assignment made once the reply is
    there and before [data.rates.CAD] is read. *)
Definition setPrevious (s : State) : State :=
  mkState (currentRate s) (currentRate s) (chart s) (historicalData s).

(** The [try] block of [fetchRate], given what the request gave. *)
Definition fetchRate_body (reply : Reply) (chartTime lastTime : jsstring)
  : M Page unit :=
  match reply with
  | Failed e => throw e
  | Unreadable e =>
      on_vars (modify setPrevious) ;;
      throw e
  | Quoted cad =>
      on_vars (modify (setRate cad)) ;;
      updateDisplay ;;
      on_vars (updateChart chartTime) ;;
      updateConverter ;;
      on_element (lit "lastUpdate") (null_set "textContent")
        (set_text (lit "Last updated: " ++ lastTime))
  end.

(** [fetchRate()], followed from its call to its end with nothing else
    running on the page while it awaits: [reply] is what the request
    gave; [chartTime] and [lastTime] are what the clock printed for the
    chart label and for the last-update line. *)
Definition fetchRate (reply : Reply) (chartTime lastTime : jsstring)
  : M Page unit :=
  fun p =>
    match dom p !! lit "refreshBtn" with
    | None => (Throw (null_read "classList"), p)
    | Some btn =>
        let loading :=
          set_text (lit "Updating...") (set_classes (add_class (lit "loading") (classes btn)) btn) in
        let p1 := set_dom (<[lit "refreshBtn" := loading]> (dom p)) p in
        let '(o, p2) := fetchRate_body reply chartTime lastTime p1 in
        let p3 :=
          match o with
          | Return _ => p2
          | Throw e =>
              mkPage (vars p2) (dom p2) (alerts p2 ++ [fetch_failed])
                     (console_errors p2 ++ [e])
          end in
        let restore (b : Element) :=
          set_text (lit "Refresh Rate")
            (set_classes (remove_class (lit "loading") (classes b)) b) in
        (Return tt, set_dom (alter restore (lit "refreshBtn") (dom p3)) p3)
    end.

(** ** What the steps of the page leave alone *)

Lemma preserves_bind {A B} (R : Page -> Page -> Prop) (c : M Page A) (k : A -> M Page B) :
  (forall p, R p p) -> (forall p q r, R p q -> R q r -> R p r) ->
  preserves R c -> (forall a, preserves R (k a)) -> preserves R (bind c k).
Proof.
  intros Hrefl Htrans Hc Hk p. unfold bind.
  pose proof (Hc p) as H1. destruct (c p) as [[a|e] p1]; simpl in *.
  - eapply Htrans; [exact H1|apply Hk].
  - exact H1.
Qed.

Lemma preserves_pure {A} (R : Page -> Page -> Prop) (c : M Page A) :
  (forall p, R p p) -> (forall p, snd (c p) = p) -> preserves R c.
Proof. intros Hrefl Hc p. rewrite Hc. apply Hrefl. Qed.

Lemma same_element_refl k p : same_element k p p.
Proof. reflexivity. Qed.
Lemma same_element_trans k p q r :
  same_element k p q -> same_element k q r -> same_element k p r.
Proof. unfold same_element. congruence. Qed.

Lemma same_rates_refl p : same_rates p p.
Proof. split; reflexivity. Qed.
Lemma same_rates_trans p q r : same_rates p q -> same_rates q r -> same_rates p r.
Proof. unfold same_rates. intros [] []. split; congruence. Qed.

Lemma same_messages_refl p : same_messages p p.
Proof. split; reflexivity. Qed.
Lemma same_messages_trans p q r :
  same_messages p q -> same_messages q r -> same_messages p r.
Proof. unfold same_messages. intros [] []. split; congruence. Qed.

Lemma same_ids_refl p : same_ids p p.
Proof. intros k. reflexivity. Qed.
Lemma same_ids_trans p q r : same_ids p q -> same_ids q r -> same_ids p r.
Proof. unfold same_ids. intros H1 H2 k. rewrite H2. apply H1. Qed.

Lemma on_element_some id null f (p : Page) e :
  dom p !! id = Some e ->
  on_element id null f p = (Return tt, set_dom (<[id := f e]> (dom p)) p).
Proof. intros H. unfold on_element. rewrite H. reflexivity. Qed.

Lemma on_element_none id null f (p : Page) :
  dom p !! id = None ->
  on_element id null f p = (Throw null, p).
Proof. intros H. unfold on_element. rewrite H. reflexivity. Qed.

Lemma on_element_same_element id null f k :
  k <> id -> preserves (same_element k) (on_element id null f).
Proof.
  intros Hne p. unfold on_element, same_element.
  destruct (dom p !! id); simpl; [|reflexivity].
  apply lookup_insert_ne. congruence.
Qed.

Lemma on_element_same_rates id null f : preserves same_rates (on_element id null f).
Proof.
  intros p. unfold on_element. destruct (dom p !! id); split; reflexivity.
Qed.

Lemma on_element_same_messages id null f :
  preserves same_messages (on_element id null f).
Proof.
  intros p. unfold on_element. destruct (dom p !! id); split; reflexivity.
Qed.

Lemma on_element_same_ids id null f : preserves same_ids (on_element id null f).
Proof.
  intros p k. unfold on_element. destruct (dom p !! id) as [e|] eqn:He; simpl;
    [|reflexivity].
  destruct (decide (id = k)) as [->|Hne].
  - rewrite lookup_insert_eq, He. split; eauto.
  - rewrite lookup_insert_ne by exact Hne. reflexivity.
Qed.

Lemma on_vars_same_element {A} (c : M State A) k : preserves (same_element k) (on_vars c).
Proof. intros p. unfold on_vars. destruct (c (vars p)). reflexivity. Qed.

Lemma on_vars_same_messages {A} (c : M State A) : preserves same_messages (on_vars c).
Proof. intros p. unfold on_vars. destruct (c (vars p)). split; reflexivity. Qed.

Lemma on_vars_same_ids {A} (c : M State A) : preserves same_ids (on_vars c).
Proof. intros p k. unfold on_vars. destruct (c (vars p)). reflexivity. Qed.

Lemma called_pure {A} (r : JsError + A) (p : Page) : snd (called r p) = p.
Proof. destruct r; reflexivity. Qed.

(** Walk through a computation of the page, leaving one goal for each
    write to an element or to the variables. *)
Ltac walk refl trans :=
  repeat first
    [ match goal with
      | |- preserves _ (bind _ _) =>
          apply preserves_bind; [exact refl | exact trans | | intros ?]
      end
    | match goal with
      | |- preserves _ (let _ := _ in _) => cbv zeta
      | |- preserves _ (if ?b then _ else _) => destruct b
      | |- preserves _ (match ?o with Some _ => _ | None => _ end) => destruct o
      | |- preserves _ (gets _) => apply preserves_pure; [exact refl | reflexivity]
      | |- preserves _ (ret _) => apply preserves_pure; [exact refl | reflexivity]
      | |- preserves _ (throw _) => apply preserves_pure; [exact refl | reflexivity]
      | |- preserves _ (called _) => apply preserves_pure; [exact refl | apply called_pure]
      end ].

Ltac other_id :=
  let H := fresh in intros H; vm_compute in H; discriminate H.

Lemma updateDisplay_same_rates : preserves same_rates updateDisplay.
Proof.
  unfold updateDisplay. walk same_rates_refl same_rates_trans;
    apply on_element_same_rates.
Qed.

Lemma updateDisplay_same_messages : preserves same_messages updateDisplay.
Proof.
  unfold updateDisplay. walk same_messages_refl same_messages_trans;
    apply on_element_same_messages.
Qed.

Lemma updateDisplay_same_ids : preserves same_ids updateDisplay.
Proof.
  unfold updateDisplay. walk same_ids_refl same_ids_trans;
    apply on_element_same_ids.
Qed.

(** [updateDisplay] writes to four elements only. *)
Lemma updateDisplay_same_element k :
  k <> lit "currentRate" -> k <> lit "changeDisplay" ->
  k <> lit "high24h" -> k <> lit "low24h" ->
  preserves (same_element k) updateDisplay.
Proof.
  intros H1 H2 H3 H4. unfold updateDisplay.
  walk (same_element_refl k) (same_element_trans k);
    apply on_element_same_element; assumption.
Qed.

Lemma updateConverter_same_rates : preserves same_rates updateConverter.
Proof.
  unfold updateConverter. walk same_rates_refl same_rates_trans;
    apply on_element_same_rates.
Qed.

Lemma updateConverter_same_messages : preserves same_messages updateConverter.
Proof.
  unfold updateConverter. walk same_messages_refl same_messages_trans;
    apply on_element_same_messages.
Qed.

Lemma updateConverter_same_ids : preserves same_ids updateConverter.
Proof.
  unfold updateConverter. walk same_ids_refl same_ids_trans;
    apply on_element_same_ids.
Qed.

(** [updateConverter] writes to the two inputs only. *)
Lemma updateConverter_same_element k :
  k <> lit "usdInput" -> k <> lit "cadInput" ->
  preserves (same_element k) updateConverter.
Proof.
  intros H1 H2. unfold updateConverter.
  walk (same_element_refl k) (same_element_trans k);
    apply on_element_same_element; assumption.
Qed.

Lemma updateChart_same_rates timeLabel : preserves same_rates (on_vars (updateChart timeLabel)).
Proof.
  intros p. unfold on_vars, same_rates.
  pose proof (updateChart_rate timeLabel (vars p)) as Hc.
  assert (Hp : previousRate (snd (updateChart timeLabel (vars p))) = previousRate (vars p)).
  { unfold updateChart. destruct (chart (vars p)) as [c|]; [|reflexivity].
    destruct (datasets c); reflexivity. }
  destruct (updateChart timeLabel (vars p)) as [o v]. simpl in *. auto.
Qed.

(** ** fetchRate *)

(** The steps of the [try] block between the arrival of the quote and
    the last-update line. *)
Definition fetchRate_updates (cad : number) (chartTime : jsstring) : M Page unit :=
  on_vars (modify (setRate cad)) ;;
  updateDisplay ;;
  on_vars (updateChart chartTime) ;;
  updateConverter.

Lemma fetchRate_body_split cad chartTime lastTime (p : Page) :
  fetchRate_body (Quoted cad) chartTime lastTime p =
  (fetchRate_updates cad chartTime ;;
   on_element (lit "lastUpdate") (null_set "textContent")
     (set_text (lit "Last updated: " ++ lastTime))) p.
Proof.
  unfold fetchRate_body, fetchRate_updates, bind.
  destruct (on_vars (modify (setRate cad)) p) as [[[]|e] p1]; [|reflexivity].
  destruct (updateDisplay p1) as [[[]|e] p2]; [|reflexivity].
  destruct (on_vars (updateChart chartTime) p2) as [[[]|e] p3]; [|reflexivity].
  destruct (updateConverter p3) as [[[]|e] p4]; reflexivity.
Qed.

Lemma fetchRate_updates_same_element cad chartTime k :
  k <> lit "currentRate" -> k <> lit "changeDisplay" ->
  k <> lit "high24h" -> k <> lit "low24h" ->
  k <> lit "usdInput" -> k <> lit "cadInput" ->
  preserves (same_element k) (fetchRate_updates cad chartTime).
Proof.
  intros H1 H2 H3 H4 H5 H6. unfold fetchRate_updates.
  walk (same_element_refl k) (same_element_trans k).
  - apply on_vars_same_element.
  - apply updateDisplay_same_element; assumption.
  - apply on_vars_same_element.
  - apply updateConverter_same_element; assumption.
Qed.

Lemma fetchRate_updates_same_messages cad chartTime :
  preserves same_messages (fetchRate_updates cad chartTime).
Proof.
  unfold fetchRate_updates. walk same_messages_refl same_messages_trans.
  - apply on_vars_same_messages.
  - apply updateDisplay_same_messages.
  - apply on_vars_same_messages.
  - apply updateConverter_same_messages.
Qed.

Lemma fetchRate_updates_same_ids cad chartTime :
  preserves same_ids (fetchRate_updates cad chartTime).
Proof.
  unfold fetchRate_updates. walk same_ids_refl same_ids_trans.
  - apply on_vars_same_ids.
  - apply updateDisplay_same_ids.
  - apply on_vars_same_ids.
  - apply updateConverter_same_ids.
Qed.

(** Once the quote has arrived the two rates are set, whatever fails
    afterwards. *)
Lemma fetchRate_updates_rates cad chartTime (p : Page) :
  let p' := snd (fetchRate_updates cad chartTime p) in
  currentRate (vars p') = cad /\ previousRate (vars p') = currentRate (vars p).
Proof.
  cbn zeta.
  set (p1 := set_vars (setRate cad (vars p)) p).
  assert (Heq : fetchRate_updates cad chartTime p =
                (updateDisplay ;; on_vars (updateChart chartTime) ;; updateConverter) p1)
    by reflexivity.
  rewrite Heq.
  assert (H : preserves same_rates
                (updateDisplay ;; on_vars (updateChart chartTime) ;; updateConverter)).
  { walk same_rates_refl same_rates_trans.
    - apply updateDisplay_same_rates.
    - apply updateChart_same_rates.
    - apply updateConverter_same_rates. }
  destruct (H p1) as [Hc Hp]. rewrite Hc, Hp. split; reflexivity.
Qed.


Lemma fetchRate_body_same_messages reply chartTime lastTime :
  preserves same_messages (fetchRate_body reply chartTime lastTime).
Proof.
  intros p. destruct reply as [e|e|cad]; [split; reflexivity|split; reflexivity|].
  rewrite fetchRate_body_split.
  refine (preserves_bind _ _ _ same_messages_refl same_messages_trans _ _ p).
  - apply fetchRate_updates_same_messages.
  - intros _. apply on_element_same_messages.
Qed.

Lemma remove_add_class x cs : remove_class x (add_class x cs) = remove_class x cs.
Proof.
  unfold remove_class, add_class. case_bool_decide; [reflexivity|].
  rewrite filter_app. cbn. rewrite decide_False by (intros Hx; apply Hx; reflexivity).
  apply app_nil_r.
Qed.


(** X15. A request that fails changes nothing but the button, one alert
    and one line on the console: the rates, the history, the chart and
    every other element stay as they were. A reply that came but from
    which no rate could be read does the same, except that the previous
    rate has already taken the value of the current one. *)
Theorem fetchRate_failed_request e chartTime lastTime (p : Page) btn :
  dom p !! lit "refreshBtn" = Some btn ->
  let restored :=
    <[lit "refreshBtn" :=
        mkElement (lit "Refresh Rate") (remove_class (lit "loading") (classes btn))
                  (value btn) (inputListeners btn)]> (dom p) in
  fetchRate (Failed e) chartTime lastTime p =
    (Return tt,
     mkPage (vars p) restored (alerts p ++ [fetch_failed]) (console_errors p ++ [e]))
  /\ fetchRate (Unreadable e) chartTime lastTime p =
       (Return tt,
        mkPage (setPrevious (vars p)) restored
          (alerts p ++ [fetch_failed]) (console_errors p ++ [e])).
Proof.
  intros Hbtn. cbn zeta. unfold fetchRate. rewrite Hbtn. simpl.
  unfold set_dom, set_vars. simpl.
  rewrite alter_insert_eq. simpl. rewrite remove_add_class.
  split; reflexivity.
Qed.

(** X16. Every run of [fetchRate] with a button ends in exactly one of
    two ways. Either everything succeeded: nothing was alerted, and the
    last-update line shows the time. Or something failed, the request or
    any later step: the failure was alerted once and logged once, and
    the last-update line is untouched. When a rate was read, the two
    rates are updated in both cases; when the reply was there but no
    rate could be read, the previous rate is updated alone. *)
Theorem fetchRate_alert_or_timestamp reply chartTime lastTime (p : Page) btn :
  dom p !! lit "refreshBtn" = Some btn ->
  let p' := snd (fetchRate reply chartTime lastTime p) in
  ((alerts p' = alerts p /\ console_errors p' = console_errors p
    /\ exists e, dom p !! lit "lastUpdate" = Some e
         /\ dom p' !! lit "lastUpdate" =
              Some (set_text (lit "Last updated: " ++ lastTime) e))
   \/ (alerts p' = alerts p ++ [fetch_failed]
       /\ (exists err, console_errors p' = console_errors p ++ [err])
       /\ dom p' !! lit "lastUpdate" = dom p !! lit "lastUpdate"))
  /\ (forall cad, reply = Quoted cad ->
        currentRate (vars p') = cad /\ previousRate (vars p') = currentRate (vars p))
  /\ (forall e, reply = Unreadable e ->
        currentRate (vars p') = currentRate (vars p)
        /\ previousRate (vars p') = currentRate (vars p)).
Proof.
  intros Hbtn. cbn zeta. unfold fetchRate. rewrite Hbtn.
  set (loading := set_text _ _).
  set (p1 := set_dom _ p).
  assert (Hlast1 : dom p1 !! lit "lastUpdate" = dom p !! lit "lastUpdate").
  { subst p1. simpl. apply lookup_insert_ne. other_id. }
  destruct reply as [e|e|cad].
  - split; [|split; discriminate]. right. simpl.
    rewrite lookup_alter_ne by other_id. rewrite lookup_insert_ne by other_id. eauto.
  - split; [|split; [discriminate|intros e' _; split; reflexivity]]. right. simpl.
    rewrite lookup_alter_ne by other_id. rewrite lookup_insert_ne by other_id. eauto.
  - assert (Hrates : forall q : Page,
              currentRate (vars q) = cad /\ previousRate (vars q) = currentRate (vars p) ->
              (forall c, Quoted cad = Quoted c ->
                 currentRate (vars q) = c /\ previousRate (vars q) = currentRate (vars p))
              /\ (forall e, Quoted cad = Unreadable e ->
                    currentRate (vars q) = currentRate (vars p)
                    /\ previousRate (vars q) = currentRate (vars p))).
    { intros q Hq. split; [|discriminate]. intros c Hc. injection Hc as <-. exact Hq. }
    rewrite fetchRate_body_split. unfold bind.
    pose proof (fetchRate_updates_same_element cad chartTime (lit "lastUpdate")
                  ltac:(other_id) ltac:(other_id) ltac:(other_id) ltac:(other_id)
                  ltac:(other_id) ltac:(other_id) p1) as Hk.
    pose proof (fetchRate_updates_same_messages cad chartTime p1) as [Ha Hc].
    pose proof (fetchRate_updates_rates cad chartTime p1) as Hr.
    unfold same_element in Hk. cbn zeta in Hr.
    destruct (fetchRate_updates cad chartTime p1) as [[[]|e] p2]; cbn [fst snd] in *.
    + unfold on_element.
      destruct (dom p2 !! lit "lastUpdate") as [el|] eqn:Hel; cbn [fst snd].
      * split; [left|apply Hrates; exact Hr].
        simpl. rewrite Ha, Hc. split; [reflexivity|]. split; [reflexivity|].
        exists el. rewrite <- Hlast1, <- Hk. split; [reflexivity|].
        rewrite lookup_alter_ne by other_id. apply lookup_insert_eq.
      * split; [right|apply Hrates; exact Hr].
        simpl. rewrite Ha, Hc. split; [reflexivity|]. split; [eauto|].
        rewrite lookup_alter_ne by other_id. rewrite Hel, <- Hlast1, <- Hk. reflexivity.
    + split; [right|apply Hrates; exact Hr].
      simpl. rewrite Ha, Hc. split; [reflexivity|]. split; [eauto|].
      rewrite lookup_alter_ne by other_id. rewrite Hk, Hlast1. reflexivity.
Qed.

(** ** The first quote, a missing chart, and the converter's listeners *)

(** The module's variables are left as they are. *)
Definition same_vars (p p' : Page) : Prop := vars p' = vars p.

Lemma same_vars_refl p : same_vars p p.
Proof. reflexivity. Qed.
Lemma same_vars_trans p q r : same_vars p q -> same_vars q r -> same_vars p r.
Proof. unfold same_vars. congruence. Qed.

Lemma on_element_same_vars id null f : preserves same_vars (on_element id null f).
Proof. intros p. unfold on_element. destruct (dom p !! id); reflexivity. Qed.

Lemma updateDisplay_same_vars : preserves same_vars updateDisplay.
Proof.
  unfold updateDisplay. walk same_vars_refl same_vars_trans;
    apply on_element_same_vars.
Qed.

Lemma bind_gets {A B} (f : Page -> A) (k : A -> M Page B) (p : Page) :
  bind (gets f) k p = k (f p) p.
Proof. reflexivity. Qed.

(** With no previous rate above 0, [updateDisplay] leaves the change
    indicator alone. *)
Lemma updateDisplay_first_load (p : Page) :
  num_gt (previousRate (vars p)) zero = false ->
  same_element (lit "changeDisplay") p (snd (updateDisplay p)).
Proof.
  intros Hprev. unfold updateDisplay.
  rewrite bind_gets. cbn beta. rewrite bind_gets. cbn beta. rewrite Hprev.
  match goal with
  | |- same_element ?k _ (snd (?c p)) => assert (Hc : preserves (same_element k) c)
  end.
  { walk (same_element_refl (lit "changeDisplay")) (same_element_trans (lit "changeDisplay"));
      apply on_element_same_element; other_id. }
  apply Hc.
Qed.

(** The steps of the [try] block up to the chart. *)
Definition fetchRate_charted (cad : number) (chartTime : jsstring) : M Page unit :=
  on_vars (modify (setRate cad)) ;;
  updateDisplay ;;
  on_vars (updateChart chartTime).

Lemma fetchRate_body_steps cad chartTime lastTime (p : Page) :
  fetchRate_body (Quoted cad) chartTime lastTime p =
  (fetchRate_charted cad chartTime ;;
   updateConverter ;;
   on_element (lit "lastUpdate") (null_set "textContent")
     (set_text (lit "Last updated: " ++ lastTime))) p.
Proof.
  unfold fetchRate_body, fetchRate_charted, bind.
  destruct (on_vars (modify (setRate cad)) p) as [[[]|e] p1]; [|reflexivity].
  destruct (updateDisplay p1) as [[[]|e] p2]; [|reflexivity].
  destruct (on_vars (updateChart chartTime) p2) as [[[]|e] p3]; reflexivity.
Qed.

Lemma fetchRate_charted_same_element cad chartTime k :
  k <> lit "currentRate" -> k <> lit "changeDisplay" ->
  k <> lit "high24h" -> k <> lit "low24h" ->
  preserves (same_element k) (fetchRate_charted cad chartTime).
Proof.
  intros H1 H2 H3 H4. unfold fetchRate_charted.
  walk (same_element_refl k) (same_element_trans k).
  - apply on_vars_same_element.
  - apply updateDisplay_same_element; assumption.
  - apply on_vars_same_element.
Qed.

Lemma fetchRate_charted_from cad chartTime (p : Page) :
  fetchRate_charted cad chartTime p =
  (updateDisplay ;; on_vars (updateChart chartTime))
    (set_vars (setRate cad (vars p)) p).
Proof. reflexivity. Qed.

Lemma fetchRate_charted_rates cad chartTime (p : Page) :
  let p' := snd (fetchRate_charted cad chartTime p) in
  currentRate (vars p') = cad /\ previousRate (vars p') = currentRate (vars p).
Proof.
  cbn zeta. rewrite fetchRate_charted_from.
  assert (H : preserves same_rates (updateDisplay ;; on_vars (updateChart chartTime))).
  { walk same_rates_refl same_rates_trans.
    - apply updateDisplay_same_rates.
    - apply updateChart_same_rates. }
  destruct (H (set_vars (setRate cad (vars p)) p)) as [Hc Hp].
  rewrite Hc, Hp. split; reflexivity.
Qed.

Lemma fetchRate_charted_first_load cad chartTime (p : Page) :
  num_gt (currentRate (vars p)) zero = false ->
  same_element (lit "changeDisplay") p (snd (fetchRate_charted cad chartTime p)).
Proof.
  intros Hcur. rewrite fetchRate_charted_from.
  set (p1 := set_vars (setRate cad (vars p)) p).
  pose proof (updateDisplay_first_load p1 Hcur) as H1.
  unfold bind. destruct (updateDisplay p1) as [[[]|e] p2]; cbn [fst snd] in *.
  - eapply same_element_trans; [exact H1|]. apply on_vars_same_element.
  - exact H1.
Qed.

(** Without a chart the steps up to the chart throw, with the history
    already changed. *)
Lemma fetchRate_charted_no_chart cad chartTime (p : Page) :
  chart (vars p) = None ->
  let res := fetchRate_charted cad chartTime p in
  (exists e, fst res = Throw e) /\ chart (vars (snd res)) = None.
Proof.
  intros Hchart. cbn zeta. rewrite fetchRate_charted_from.
  set (p1 := set_vars (setRate cad (vars p)) p).
  assert (H1 : chart (vars p1) = None) by exact Hchart.
  pose proof (updateDisplay_same_vars p1) as Hv. unfold same_vars in Hv.
  unfold bind. destruct (updateDisplay p1) as [[[]|e] p2]; cbn [fst snd] in *.
  - unfold on_vars, updateChart. rewrite Hv, H1. simpl. eauto.
  - rewrite Hv. eauto.
Qed.

Lemma app_one_neq {A} (l : list A) x : l ++ [x] <> l.
Proof.
  intros H. apply (f_equal length) in H. rewrite length_app in H. simpl in H. lia.
Qed.

(** What [updateConverter] has done when it returns. *)
Lemma updateConverter_returns (p p' : Page) :
  updateConverter p = (Return tt, p') ->
  exists u c converted,
    dom p !! lit "usdInput" = Some u /\ dom p !! lit "cadInput" = Some c
    /\ toFixed (num_mul (parseFloat (value u)) (currentRate (vars p))) 2 = inr converted
    /\ p' = set_dom
              (<[lit "cadInput" := set_value converted c]>
                 (<[lit "usdInput" := add_listener u]> (dom p))) p.
Proof.
  unfold updateConverter. rewrite bind_gets. cbn beta.
  unfold bind at 1. unfold on_element at 1.
  destruct (dom p !! lit "usdInput") as [u|] eqn:Hu; [|discriminate].
  rewrite bind_gets. cbn beta. cbn [dom set_dom].
  rewrite lookup_insert_eq. cbn [value add_listener].
  unfold bind, called.
  destruct (toFixed _ 2) as [e|converted] eqn:Hfix; [discriminate|].
  unfold ret, on_element. cbn [dom set_dom].
  rewrite lookup_insert_ne by other_id.
  destruct (dom p !! lit "cadInput") as [c|] eqn:Hc; [|discriminate].
  intros H. injection H as <-. exists u, c, converted.
  split; [reflexivity|]. split; [reflexivity|]. split; [exact Hfix|reflexivity].
Qed.

(** The listener changes the value of [cadInput] only, and running it
    again changes nothing more. *)
Lemma input_listener_idem (p : Page) :
  input_listener (input_listener p) = input_listener p.
Proof.
  unfold input_listener at 2 3.
  destruct (dom p !! lit "usdInput") as [u|] eqn:Hu.
  - cbn zeta.
    destruct (toFixed _ 2) as [e|converted] eqn:Hfix.
    + unfold input_listener. rewrite Hu. cbn zeta. rewrite Hfix. reflexivity.
    + unfold on_element.
      destruct (dom p !! lit "cadInput") as [c|] eqn:Hc; cbn [snd].
      * unfold input_listener. cbn [dom set_dom vars].
        rewrite lookup_insert_ne by other_id. rewrite Hu. cbn zeta. rewrite Hfix.
        unfold on_element. cbn [dom set_dom vars]. rewrite lookup_insert_eq. cbn [snd].
        unfold set_dom. cbn [dom vars alerts console_errors].
        rewrite insert_insert_eq. reflexivity.
      * unfold input_listener. rewrite Hu. cbn zeta. rewrite Hfix.
        unfold on_element. rewrite Hc. reflexivity.
  - unfold input_listener. rewrite Hu. reflexivity.
Qed.

Lemma iter_idem {A} (f : A -> A) (x : A) n :
  (forall y, f (f y) = f y) -> Nat.iter (S n) f x = f x.
Proof.
  intros Hf. induction n as [|n IH]; [reflexivity|].
  change (Nat.iter (S (S n)) f x) with (f (Nat.iter (S n) f x)).
  rewrite IH. apply Hf.
Qed.

(** X17. However many listeners the refreshes have added to [usdInput],
    an [input] event has the effect of one of them: it sets the value of
    [cadInput] from the value of [usdInput] (0 for one that does not
    parse) and the current rate, or leaves it when [toFixed] throws, and
    touches nothing else. *)
Theorem dispatch_input_once (p : Page) u :
  dom p !! lit "usdInput" = Some u ->
  (0 < inputListeners u)%nat ->
  dispatch_input p = input_listener p
  /\ vars (dispatch_input p) = vars p
  /\ (forall k, k <> lit "cadInput" -> dom (dispatch_input p) !! k = dom p !! k)
  /\ (forall c, dom p !! lit "cadInput" = Some c ->
        let parsed := parseFloat (value u) in
        let usd := if truthy parsed then parsed else zero in
        dom (dispatch_input p) !! lit "cadInput" =
        Some (match toFixed (num_mul usd (currentRate (vars p))) 2 with
              | inr converted => set_value converted c
              | inl _ => c
              end)).
Proof.
  intros Hu Hn.
  assert (Hd : dispatch_input p = input_listener p).
  { unfold dispatch_input. rewrite Hu.
    destruct (inputListeners u) as [|n]; [lia|].
    apply iter_idem, input_listener_idem. }
  rewrite Hd. split; [reflexivity|].
  unfold input_listener. rewrite Hu. cbn zeta.
  destruct (toFixed _ 2) as [e|converted] eqn:Hfix.
  { split; [reflexivity|]. split; [reflexivity|]. intros c Hc. exact Hc. }
  unfold on_element.
  destruct (dom p !! lit "cadInput") as [c|] eqn:Hc; cbn [snd].
  - split; [reflexivity|]. split.
    + intros k Hk. cbn [dom set_dom]. apply lookup_insert_ne. congruence.
    + intros c' Hc'. injection Hc' as <-. cbn [dom set_dom]. apply lookup_insert_eq.
  - split; [reflexivity|]. split; [reflexivity|]. intros c' Hc'. discriminate Hc'.
Qed.

(** X18. A refresh that raised no alert has gone through every step: a
    rate was read, one more [input] listener is on [usdInput], and
    [cadInput] shows the value of [usdInput] converted at the new rate
    (without the fallback to 0 the listener has). *)
Theorem fetchRate_adds_listener reply chartTime lastTime (p : Page) btn :
  dom p !! lit "refreshBtn" = Some btn ->
  let p' := snd (fetchRate reply chartTime lastTime p) in
  alerts p' = alerts p ->
  exists cad u c converted,
    reply = Quoted cad
    /\ dom p !! lit "usdInput" = Some u /\ dom p !! lit "cadInput" = Some c
    /\ toFixed (num_mul (parseFloat (value u)) cad) 2 = inr converted
    /\ dom p' !! lit "usdInput" = Some (add_listener u)
    /\ dom p' !! lit "cadInput" = Some (set_value converted c).
Proof.
  intros Hbtn. cbn zeta. unfold fetchRate. rewrite Hbtn.
  set (loading := set_text _ _).
  set (p1 := set_dom _ p).
  assert (Hp1 : forall k, k <> lit "refreshBtn" -> dom p1 !! k = dom p !! k).
  { intros k Hk. subst p1. cbn [dom set_dom]. apply lookup_insert_ne. congruence. }
  destruct reply as [e|e|cad].
  { simpl. intros H. destruct (app_one_neq _ _ H). }
  { simpl. intros H. destruct (app_one_neq _ _ H). }
  rewrite fetchRate_body_steps. unfold bind.
  pose proof (fetchRate_charted_same_element cad chartTime (lit "usdInput")
                ltac:(other_id) ltac:(other_id) ltac:(other_id) ltac:(other_id) p1) as Hku.
  pose proof (fetchRate_charted_same_element cad chartTime (lit "cadInput")
                ltac:(other_id) ltac:(other_id) ltac:(other_id) ltac:(other_id) p1) as Hkc.
  assert (Ha : same_messages p1 (snd (fetchRate_charted cad chartTime p1))).
  { unfold fetchRate_charted.
    assert (H : preserves same_messages
                  (on_vars (modify (setRate cad)) ;; updateDisplay ;;
                   on_vars (updateChart chartTime))).
    { walk same_messages_refl same_messages_trans.
      - apply on_vars_same_messages.
      - apply updateDisplay_same_messages.
      - apply on_vars_same_messages. }
    apply H. }
  pose proof (fetchRate_charted_rates cad chartTime p1) as [Hr _].
  unfold same_element in Hku, Hkc. destruct Ha as [Ha _].
  destruct (fetchRate_charted cad chartTime p1) as [[[]|e] p2]; cbn [fst snd] in *.
  2:{ simpl. rewrite Ha. intros H. destruct (app_one_neq _ _ H). }
  pose proof (updateConverter_same_messages p2) as [Ha3 _].
  destruct (updateConverter p2) as [[[]|e] p3] eqn:Hconv; cbn [fst snd] in *.
  2:{ simpl. rewrite Ha3, Ha. intros H. destruct (app_one_neq _ _ H). }
  apply updateConverter_returns in Hconv as (u & c & converted & Hu & Hc & Hfix & ->).
  unfold on_element. cbn [dom set_dom].
  destruct (_ !! lit "lastUpdate") as [el|] eqn:Hel; cbn [fst snd].
  2:{ simpl. rewrite Ha. intros H. destruct (app_one_neq _ _ H). }
  intros _. exists cad, u, c, converted. rewrite Hr in Hfix.
  rewrite <- (Hp1 (lit "usdInput")) by other_id.
  rewrite <- (Hp1 (lit "cadInput")) by other_id.
  rewrite <- Hku, <- Hkc.
  split; [reflexivity|]. split; [exact Hu|]. split; [exact Hc|]. split; [exact Hfix|].
  cbn [dom set_dom]. split.
  - rewrite lookup_alter_ne by other_id. rewrite lookup_insert_ne by other_id.
    rewrite lookup_insert_ne by other_id. apply lookup_insert_eq.
  - rewrite lookup_alter_ne by other_id. rewrite lookup_insert_ne by other_id.
    apply lookup_insert_eq.
Qed.

(** X19. The first quote shows no change: when the rate held before a refresh
    is not above 0, as it is when the page has just loaded, the refresh
    leaves the change indicator as it was, whatever the quote. *)
Theorem fetchRate_first_quote reply chartTime lastTime (p : Page) btn :
  dom p !! lit "refreshBtn" = Some btn ->
  num_gt (currentRate (vars p)) zero = false ->
  dom (snd (fetchRate reply chartTime lastTime p)) !! lit "changeDisplay"
  = dom p !! lit "changeDisplay".
Proof.
  intros Hbtn Hcur. unfold fetchRate. rewrite Hbtn.
  set (loading := set_text _ _).
  set (p1 := set_dom _ p).
  assert (Hp1 : dom p1 !! lit "changeDisplay" = dom p !! lit "changeDisplay").
  { subst p1. cbn [dom set_dom]. apply lookup_insert_ne. other_id. }
  destruct reply as [e|e|cad].
  { simpl. rewrite lookup_alter_ne by other_id. apply lookup_insert_ne. other_id. }
  { simpl. rewrite lookup_alter_ne by other_id. apply lookup_insert_ne. other_id. }
  rewrite fetchRate_body_steps. unfold bind.
  pose proof (fetchRate_charted_first_load cad chartTime p1 Hcur) as H2.
  unfold same_element in H2.
  destruct (fetchRate_charted cad chartTime p1) as [[[]|e] p2]; cbn [fst snd] in *.
  2:{ simpl. rewrite lookup_alter_ne by other_id. congruence. }
  pose proof (updateConverter_same_element (lit "changeDisplay")
                ltac:(other_id) ltac:(other_id) p2) as H3.
  unfold same_element in H3.
  destruct (updateConverter p2) as [[[]|e] p3]; cbn [fst snd] in *.
  2:{ simpl. rewrite lookup_alter_ne by other_id. congruence. }
  pose proof (on_element_same_element (lit "lastUpdate") (null_set "textContent")
                (set_text (lit "Last updated: " ++ lastTime)) (lit "changeDisplay")
                ltac:(other_id) p3) as H4.
  unfold same_element in H4.
  destruct (on_element _ _ _ p3) as [[[]|e] p4]; cbn [fst snd] in *;
    simpl; rewrite lookup_alter_ne by other_id; congruence.
Qed.

(** X20. Without a chart ([initChart] not called) a quote that arrives is
    still reported as a failure: the rates are updated and the point is
    in the history, but the failure is alerted, and the converter and
    the last-update line are never reached. *)
Theorem fetchRate_without_chart cad chartTime lastTime (p : Page) btn :
  dom p !! lit "refreshBtn" = Some btn ->
  chart (vars p) = None ->
  let p' := snd (fetchRate (Quoted cad) chartTime lastTime p) in
  alerts p' = alerts p ++ [fetch_failed]
  /\ currentRate (vars p') = cad
  /\ previousRate (vars p') = currentRate (vars p)
  /\ chart (vars p') = None
  /\ (forall k, k = lit "usdInput" \/ k = lit "cadInput" \/ k = lit "lastUpdate" ->
        dom p' !! k = dom p !! k).
Proof.
  intros Hbtn Hchart. cbn zeta. unfold fetchRate. rewrite Hbtn.
  set (loading := set_text _ _).
  set (p1 := set_dom _ p).
  rewrite fetchRate_body_steps. unfold bind.
  pose proof (fetchRate_charted_no_chart cad chartTime p1 Hchart) as [[e He] Hc2].
  pose proof (fetchRate_charted_rates cad chartTime p1) as [Hr1 Hr2].
  assert (Hk : forall k, k = lit "usdInput" \/ k = lit "cadInput" \/ k = lit "lastUpdate" ->
                 dom (snd (fetchRate_charted cad chartTime p1)) !! k = dom p !! k).
  { intros k Hk.
    assert (Hne : k <> lit "currentRate" /\ k <> lit "changeDisplay"
                  /\ k <> lit "high24h" /\ k <> lit "low24h" /\ k <> lit "refreshBtn").
    { destruct Hk as [->|[->| ->]]; repeat split; other_id. }
    destruct Hne as (N1 & N2 & N3 & N4 & N5).
    rewrite (fetchRate_charted_same_element cad chartTime k N1 N2 N3 N4 p1).
    subst p1. cbn [dom set_dom]. apply lookup_insert_ne. congruence. }
  assert (Ha : alerts (snd (fetchRate_charted cad chartTime p1)) = alerts p).
  { assert (H : preserves same_messages (fetchRate_charted cad chartTime)).
    { unfold fetchRate_charted. walk same_messages_refl same_messages_trans.
      - apply on_vars_same_messages.
      - apply updateDisplay_same_messages.
      - apply on_vars_same_messages. }
    exact (proj1 (H p1)). }
  destruct (fetchRate_charted cad chartTime p1) as [o p2]; cbn [fst snd] in *.
  subst o. simpl. rewrite Ha. repeat split; auto.
  intros k Hk'. rewrite <- (Hk k Hk').
  apply lookup_alter_ne. destruct Hk' as [->|[->| ->]]; other_id.
Qed.

(** X21. A reply whose rate is not a number (one [toFixed] throws on) is
    stored all the same: the current rate is that value and the previous
    rate the former current one, while the display, the history, the
    chart and every element but the button stay as they were, and the
    error of [toFixed] is what is alerted and logged. *)
Theorem fetchRate_not_a_number cad err chartTime lastTime (p : Page) btn :
  dom p !! lit "refreshBtn" = Some btn ->
  toFixed cad 4 = inl err ->
  fetchRate (Quoted cad) chartTime lastTime p =
    (Return tt,
     mkPage (setRate cad (vars p))
       (<[lit "refreshBtn" :=
            mkElement (lit "Refresh Rate") (remove_class (lit "loading") (classes btn))
                      (value btn) (inputListeners btn)]> (dom p))
       (alerts p ++ [fetch_failed]) (console_errors p ++ [err])).
Proof.
  intros Hbtn Hfix. unfold fetchRate. rewrite Hbtn.
  set (loading := set_text _ _).
  set (p1 := set_dom _ p).
  assert (Hbody : fetchRate_body (Quoted cad) chartTime lastTime p1
                  = (Throw err, set_vars (setRate cad (vars p1)) p1)).
  { unfold fetchRate_body.
    assert (Hd : updateDisplay (set_vars (setRate cad (vars p1)) p1)
                 = (Throw err, set_vars (setRate cad (vars p1)) p1)).
    { unfold updateDisplay. rewrite bind_gets. cbn beta. rewrite bind_gets. cbn beta.
      unfold bind at 1. cbn [vars set_vars currentRate setRate]. rewrite Hfix.
      reflexivity. }
    unfold bind at 1. cbn [on_vars modify]. unfold bind at 1. rewrite Hd. reflexivity. }
  rewrite Hbody. subst p1 loading. unfold set_dom, set_vars. simpl.
  rewrite alter_insert_eq. simpl. rewrite remove_add_class. reflexivity.
Qed.

End Chart.

(** Twenty-one quotes in a row, as [fetchRate] feeds them: the first one
    is gone, the last one is kept. *)
Example twenty_one_quotes :
  let quotes := map Z.of_nat (seq 100 21) in
  let calls := CallInitChart Z
               :: flat_map (fun q => [CallSetRate Z q; CallUpdateChart Z (lit "12:00:00")])
                    quotes in
  map (rate Z) (historicalData Z (run Z 0 calls)) = map Z.of_nat (seq 101 20)
  /\ option_map (fun c => map (data Z) (datasets Z c)) (chart Z (run Z 0 calls))
     = Some [map Z.of_nat (seq 101 20)].
Proof. vm_compute. split; reflexivity. Qed.

(** ** A page to run

    Rates are counted in ten-thousandths here, [toFixed] prints the
    count, and the converter's input holds 1. *)

Definition refresh (reply : Reply Z) : M (Page Z) unit :=
  fetchRate Z 0 Z.sub (fun a b => a * b / 10000) (fun a b => a * 10000 / b) Z.add
    Z.gtb Z.ltb (fun n _ => inr (decimal n)) (fun _ => 10000) 10000 1000000 100
    (fun v => v) reply (lit "12:00:00") (lit "12:00:01").

Definition button : Element := mkElement (lit "Refresh Rate") [lit "btn"] [] 0.
Definition blank : Element := mkElement [] [] [] 0.
Definition usd_input : Element := mkElement [] [] (lit "1") 0.

Definition document : gmap jsstring Element :=
  <[lit "refreshBtn" := button]>
  (<[lit "currentRate" := blank]>
  (<[lit "changeDisplay" := blank]>
  (<[lit "high24h" := blank]>
  (<[lit "low24h" := blank]>
  (<[lit "usdInput" := usd_input]>
  (<[lit "cadInput" := blank]>
  (<[lit "lastUpdate" := blank]> ∅))))))).

(** The page once loaded, with its chart, and the same page before
    [initChart]. *)
Definition loaded : Page Z := mkPage Z (initChart Z (initial Z 0)) document [] [].
Definition chartless : Page Z := mkPage Z (initial Z 0) document [] [].

Definition network_error : JsError := TypeError (lit "Failed to fetch").

Lemma fetchRate_failed_request_witness :
  dom Z loaded !! lit "refreshBtn" = Some button
  /\ refresh (Failed Z network_error) loaded =
     (Return tt,
      mkPage Z (vars Z loaded)
        (<[lit "refreshBtn" :=
             mkElement (lit "Refresh Rate") (remove_class (lit "loading") (classes button))
                       (value button) (inputListeners button)]> (dom Z loaded))
        (alerts Z loaded ++ [fetch_failed])
        (console_errors Z loaded ++ [network_error])).
Proof.
  assert (H : dom Z loaded !! lit "refreshBtn" = Some button) by (vm_compute; reflexivity).
  split; [exact H|].
  exact (proj1 (fetchRate_failed_request Z 0 Z.sub (fun a b => a * b / 10000)
           (fun a b => a * 10000 / b) Z.add Z.gtb Z.ltb (fun n _ => inr (decimal n))
           (fun _ => 10000) 10000 1000000 100 (fun v => v)
                  network_error (lit "12:00:00") (lit "12:00:01") loaded button H)).
Defined.

Lemma fetchRate_alert_or_timestamp_witness :
  dom Z loaded !! lit "refreshBtn" = Some button
  /\ currentRate Z (vars Z (snd (refresh (Quoted Z 13650) loaded))) = 13650
  /\ previousRate Z (vars Z (snd (refresh (Quoted Z 13650) loaded)))
     = currentRate Z (vars Z loaded).
Proof.
  assert (H : dom Z loaded !! lit "refreshBtn" = Some button) by (vm_compute; reflexivity).
  split; [exact H|].
  exact (proj1 (proj2 (fetchRate_alert_or_timestamp Z 0 Z.sub (fun a b => a * b / 10000)
           (fun a b => a * 10000 / b) Z.add Z.gtb Z.ltb (fun n _ => inr (decimal n))
           (fun _ => 10000) 10000 1000000 100 (fun v => v)
                         (Quoted Z 13650) (lit "12:00:00") (lit "12:00:01") loaded button H))
           13650 eq_refl).
Defined.

(** The page after three refreshes: three listeners on the input. *)
Definition refreshed : Page Z :=
  snd (refresh (Quoted Z 13700)
         (snd (refresh (Quoted Z 13600)
                 (snd (refresh (Quoted Z 13650) loaded))))).

Lemma dispatch_input_once_witness :
  (dom Z refreshed !! lit "usdInput" = Some (mkElement [] [] (lit "1") 3)
   /\ (0 < inputListeners (mkElement [] [] (lit "1") 3))%nat)
  /\ dispatch_input Z 0 (fun a b => a * b / 10000) (fun n _ => inr (decimal n))
       (fun _ => 10000) (fun z => negb (z =? 0)) (fun v => v) refreshed
     = input_listener Z 0 (fun a b => a * b / 10000) (fun n _ => inr (decimal n))
         (fun _ => 10000) (fun z => negb (z =? 0)) (fun v => v) refreshed.
Proof.
  assert (H : dom Z refreshed !! lit "usdInput" = Some (mkElement [] [] (lit "1") 3))
    by (vm_compute; reflexivity).
  assert (Hn : (0 < inputListeners (mkElement [] [] (lit "1") 3))%nat) by (simpl; lia).
  split; [split; [exact H|exact Hn]|].
  exact (proj1 (dispatch_input_once Z 0 (fun a b => a * b / 10000)
                  (fun n _ => inr (decimal n))
                  (fun _ => 10000) (fun z => negb (z =? 0)) (fun v => v)
                  refreshed (mkElement [] [] (lit "1") 3) H Hn)).
Defined.

Lemma fetchRate_adds_listener_witness :
  (dom Z loaded !! lit "refreshBtn" = Some button
   /\ alerts Z (snd (refresh (Quoted Z 13650) loaded)) = alerts Z loaded)
  /\ exists cad u c converted,
       Quoted Z 13650 = Quoted Z cad
       /\ dom Z loaded !! lit "usdInput" = Some u
       /\ dom Z loaded !! lit "cadInput" = Some c
       /\ @inr JsError jsstring (decimal ((fun a b => a * b / 10000) 10000 cad))
          = inr converted
       /\ dom Z (snd (refresh (Quoted Z 13650) loaded)) !! lit "usdInput"
          = Some (add_listener u)
       /\ dom Z (snd (refresh (Quoted Z 13650) loaded)) !! lit "cadInput"
          = Some (set_value (fun v => v) converted c).
Proof.
  assert (H : dom Z loaded !! lit "refreshBtn" = Some button) by (vm_compute; reflexivity).
  assert (Ha : alerts Z (snd (refresh (Quoted Z 13650) loaded)) = alerts Z loaded)
    by (vm_compute; reflexivity).
  split; [split; [exact H|exact Ha]|].
  exact (fetchRate_adds_listener Z 0 Z.sub (fun a b => a * b / 10000)
           (fun a b => a * 10000 / b) Z.add Z.gtb Z.ltb (fun n _ => inr (decimal n))
           (fun _ => 10000) 10000 1000000 100 (fun v => v)
           (Quoted Z 13650) (lit "12:00:00") (lit "12:00:01") loaded button H Ha).
Defined.

Lemma fetchRate_first_quote_witness :
  (dom Z loaded !! lit "refreshBtn" = Some button
   /\ (currentRate Z (vars Z loaded) >? 0) = false)
  /\ dom Z (snd (refresh (Quoted Z 13650) loaded)) !! lit "changeDisplay"
     = dom Z loaded !! lit "changeDisplay".
Proof.
  assert (H : dom Z loaded !! lit "refreshBtn" = Some button) by (vm_compute; reflexivity).
  assert (H0 : (currentRate Z (vars Z loaded) >? 0) = false) by reflexivity.
  split; [split; [exact H|exact H0]|].
  exact (fetchRate_first_quote Z 0 Z.sub (fun a b => a * b / 10000)
           (fun a b => a * 10000 / b) Z.add Z.gtb Z.ltb (fun n _ => inr (decimal n))
           (fun _ => 10000) 10000 1000000 100 (fun v => v)
           (Quoted Z 13650) (lit "12:00:00") (lit "12:00:01") loaded button H H0).
Defined.

Lemma fetchRate_without_chart_witness :
  (dom Z chartless !! lit "refreshBtn" = Some button
   /\ chart Z (vars Z chartless) = None)
  /\ alerts Z (snd (refresh (Quoted Z 13650) chartless))
     = alerts Z chartless ++ [fetch_failed]
  /\ currentRate Z (vars Z (snd (refresh (Quoted Z 13650) chartless))) = 13650.
Proof.
  assert (H : dom Z chartless !! lit "refreshBtn" = Some button)
    by (vm_compute; reflexivity).
  assert (Hc : chart Z (vars Z chartless) = None) by reflexivity.
  split; [split; [exact H|exact Hc]|].
  destruct (fetchRate_without_chart Z 0 Z.sub (fun a b => a * b / 10000)
           (fun a b => a * 10000 / b) Z.add Z.gtb Z.ltb (fun n _ => inr (decimal n))
           (fun _ => 10000) 10000 1000000 100 (fun v => v)
              13650 (lit "12:00:00") (lit "12:00:01") chartless button H Hc)
    as (H1 & H2 & _).
  split; [exact H1|exact H2].
Defined.

(** ** A page whose rates may be undefined

    The values of a page that has met a reply without [rates.CAD]:
    numbers in ten-thousandths, [NaN] and [undefined]. *)
Inductive Val :=
| Num (z : Z)
| NaN
| Undefined.

Definition arith (f : Z -> Z -> Z) (a b : Val) : Val :=
  match a, b with
  | Num x, Num y => Num (f x y)
  | _, _ => NaN
  end.

Definition compare (f : Z -> Z -> bool) (a b : Val) : bool :=
  match a, b with
  | Num x, Num y => f x y
  | _, _ => false
  end.

Definition no_toFixed : JsError :=
  TypeError (lit "Cannot read properties of undefined (reading 'toFixed')").

Definition val_toFixed (v : Val) (digits : nat) : JsError + jsstring :=
  match v with
  | Num z => inr (decimal z)
  | NaN => inr (lit "NaN")
  | Undefined => inl no_toFixed
  end.

Definition refresh_val (reply : Reply Val) : M (Page Val) unit :=
  fetchRate Val (Num 0) (arith Z.sub) (arith (fun a b => a * b / 10000))
    (arith (fun a b => a * 10000 / b)) (arith Z.add) (compare Z.gtb) (compare Z.ltb)
    val_toFixed (fun _ => Num 10000) (Num 10000) (Num 1000000) (Num 100) (fun v => v)
    reply (lit "12:00:00") (lit "12:00:01").

(** The page after one good quote. *)
Definition quoted : Page Val :=
  snd (refresh_val (Quoted Val (Num 13650))
         (mkPage Val (initChart Val (initial Val (Num 0))) document [] [])).

Lemma fetchRate_not_a_number_witness :
  (dom Val quoted !! lit "refreshBtn" = Some button
   /\ val_toFixed Undefined 4 = inl no_toFixed)
  /\ refresh_val (Quoted Val Undefined) quoted =
     (Return tt,
      mkPage Val (setRate Val Undefined (vars Val quoted))
        (<[lit "refreshBtn" :=
             mkElement (lit "Refresh Rate") (remove_class (lit "loading") (classes button))
                       (value button) (inputListeners button)]> (dom Val quoted))
        (alerts Val quoted ++ [fetch_failed])
        (console_errors Val quoted ++ [no_toFixed])).
Proof.
  assert (H : dom Val quoted !! lit "refreshBtn" = Some button)
    by (vm_compute; reflexivity).
  split; [split; [exact H|reflexivity]|].
  exact (fetchRate_not_a_number Val (Num 0) (arith Z.sub) (arith (fun a b => a * b / 10000))
           (arith (fun a b => a * 10000 / b)) (arith Z.add) (compare Z.gtb) (compare Z.ltb)
           val_toFixed (fun _ => Num 10000) (Num 10000) (Num 1000000) (Num 100)
           (fun v => v) Undefined no_toFixed (lit "12:00:00") (lit "12:00:01")
           quoted button H eq_refl).
Defined.

End Widget.

(* ===================================================================== *)
(** * The agent on concrete services *)
(* ===================================================================== *)

Module Scenario.
Import Agent.

(** Structured values are kept as their JSON text here. *)
Definition Json : Type := jsstring.
Definition stringify (j : Json) : jsstring := j.
Definition prompt : jsstring := lit "You are the LifeRhythm assistant.".

Definition now : option Z := Some t_2026_02_18_noon.
Definition fmt : Z -> DateFormat -> jsstring := enCA UTC_zone.

(** The date context of [now] on a host in UTC. *)
Definition dateContext : jsstring :=
  match formatDateContext UTC_zone fmt now with
  | inr s => s
  | inl _ => []
  end.

(** ** Decision services *)

Definition create_item : ToolUse Json :=
  mkToolUse Json (lit "tu_1") (lit "create_item") (lit "{title: Task A}").
Definition add_reminder : ToolUse Json :=
  mkToolUse Json (lit "tu_2") (lit "add_reminder") (lit "{item_id: row_1, days: 7}").

Definition done : Response Json :=
  mkResponse Json (lit "end_turn") [TextBlock Json (lit "Done! Logged your update.")].

Definition two_tools : Response Json :=
  mkResponse Json (lit "tool_use")
    [TextBlock Json (lit "Working on it.");
     ToolUseBlock Json create_item; ToolUseBlock Json add_reminder].

(** A response that stops with [end_turn] and still holds a tool-use
    block. *)
Definition end_turn_with_tool : Response Json :=
  mkResponse Json (lit "end_turn")
    [TextBlock Json (lit " Creating "); ToolUseBlock Json create_item;
     TextBlock Json (lit "the task. ")].

Definition always (r : Response Json)
  : list (SvcEvent Json) -> Request Json -> JsError + Response Json :=
  fun _ _ => inr r.

(** Two tool calls in the first round, then the final answer. *)
Definition tools_then_done
  : list (SvcEvent Json) -> Request Json -> JsError + Response Json :=
  fun log _ => if (length log =? 0)%nat then inr two_tools else inr done.

(** ** Peers *)

Definition peer_connect (log : list (PeerEvent Json)) (c : Client) (t : Transport)
  : JsError + unit := inr tt.
Definition peer_listTools (log : list (PeerEvent Json)) : JsError + list (McpTool Json) :=
  inr [mkMcpTool Json (lit "create_item") (lit "Create an item") (lit "{}");
       mkMcpTool Json (lit "add_reminder") (lit "Add a reminder") (lit "{}")].
Definition peer_close (log : list (PeerEvent Json)) : JsError + unit := inr tt.

(** A peer that resolves every call, and one that rejects every call. *)
Definition peer_resolves (log : list (PeerEvent Json)) (name : jsstring) (a : Json)
  : JsError + Json := inr (lit "{success: true}").
Definition sheet_error : JsError := Error (lit "Sheet not found").
Definition peer_rejects (log : list (PeerEvent Json)) (name : jsstring) (a : Json)
  : JsError + Json := inl sheet_error.

(** ** Agents *)

Definition ambient : gmap jsstring jsstring :=
  <[lit "ANTHROPIC_API_KEY" := lit "sk-secret"]>
  (<[lit "HOME" := lit "/home/dean"]>
  (<[lit "PATH" := lit "/usr/bin"]> ∅)).

(** [new LifeRhythmAgent({ sheetId: 'sheet-1' })], before [connect]. *)
Definition fresh : Machine Json :=
  mkMachine Json (constructor Json (lit "/home/dean/liferhythm-mcp") (lit "sheet-1"))
    (mkWorld Json ambient [] []).

(** The same agent after [connect]. *)
Definition connected : Machine Json :=
  snd (connect Json peer_connect peer_listTools fresh).

Definition run_process svc callTool (m : Machine Json) :=
  process_run Json stringify prompt UTC_zone fmt svc callTool (lit "Create task A") now m.

(** The calls a run added to the logs. *)
Definition new_svc (m : Machine Json) res : list (SvcEvent Json) :=
  drop (length (svc_log Json (world Json m)))
       (svc_log Json (world Json (machine_of Json res))).
Definition new_peer (m : Machine Json) res : list (PeerEvent Json) :=
  drop (length (peer_log Json (world Json m)))
       (peer_log Json (world Json (machine_of Json res))).

Definition exhausted := run_process (always two_tools) peer_resolves connected.
Definition completed := run_process tools_then_done peer_resolves connected.
Definition rejected := run_process tools_then_done peer_rejects connected.

(** C1, counterexample to the claim as stated: the response holds a
    tool-invocation request, yet the loop returns on it, with its text
    and without calling the tool. *)
Lemma final_response_with_tool_use :
  toolUseBlocks Json (content Json end_turn_with_tool) = [create_item]
  /\ run_process (always end_turn_with_tool) peer_resolves connected =
     (Return (mkResult Json (lit "Creating the task.") []),
      (Some (mkFrame Json
               [mkMessage Json user
                  (Text Json (userMessage dateContext (lit "Create task A")))]
               [] 1),
       log_svc Json
         (next_request Json prompt
            (initial_frame Json (userMessage dateContext (lit "Create task A")))
            connected,
          inr end_turn_with_tool)
         connected)).
Proof. split; vm_compute; reflexivity. Qed.

(** C2, witness: a connected agent, a service that always asks for tools
    and a peer that resolves every call. *)
Lemma process_exceeds_max_turns_witness :
  (formatDateContext UTC_zone fmt now = inr dateContext
   /\ mcpClient Json (this Json connected) <> None
   /\ forallb (not_final_event Json) (new_svc connected exhausted) = true
   /\ forallb (resolved_event Json) (new_peer connected exhausted) = true)
  /\ outcome_of Json exhausted = Throw MaxTurnsExceeded
  /\ length (new_svc connected exhausted) = MAX_TURNS
  /\ err_message MaxTurnsExceeded =
       lit "Agent exceeded maximum turns (10). Aborting to prevent runaway tool calls.".
Proof.
  assert (Hd : formatDateContext UTC_zone fmt now = inr dateContext)
    by (vm_compute; reflexivity).
  assert (Hc : mcpClient Json (this Json connected) <> None)
    by (vm_compute; discriminate).
  assert (Hn : forallb (not_final_event Json) (new_svc connected exhausted) = true)
    by (vm_compute; reflexivity).
  assert (Hr : forallb (resolved_event Json) (new_peer connected exhausted) = true)
    by (vm_compute; reflexivity).
  split; [auto|].
  apply (process_exceeds_max_turns Json stringify prompt UTC_zone fmt
           (always two_tools) peer_resolves (lit "Create task A") now connected
           dateContext (new_svc connected exhausted) (new_peer connected exhausted)
           Hd Hc);
    [vm_compute; reflexivity | vm_compute; reflexivity | exact Hn | exact Hr].
Defined.

(** C2, counterexample to the claim as stated: no response of the run is
    final, yet [process] throws the peer's error after one call to the
    decision service; and on an agent that never connected it throws
    the not-connected error after one call. *)
Lemma never_final_without_max_turns :
  (outcome_of Json (run_process (always two_tools) peer_rejects connected)
     = Throw sheet_error
   /\ forallb (not_final_event Json)
        (new_svc connected (run_process (always two_tools) peer_rejects connected)) = true
   /\ length (new_svc connected (run_process (always two_tools) peer_rejects connected))
      = 1%nat)
  /\ (outcome_of Json (run_process (always two_tools) peer_resolves fresh)
        = Throw NotConnected
      /\ forallb (not_final_event Json)
           (new_svc fresh (run_process (always two_tools) peer_resolves fresh)) = true
      /\ length (new_svc fresh (run_process (always two_tools) peer_resolves fresh))
         = 1%nat).
Proof. vm_compute. repeat split; reflexivity. Qed.

(** C3, witness: two tool calls in one round, then the final answer. *)
Lemma process_action_log_witness :
  outcome_of Json completed =
    Return (mkResult Json (lit "Done! Logged your update.")
              [mkAction Json (lit "create_item") (lit "{title: Task A}")
                 (lit "{success: true}");
               mkAction Json (lit "add_reminder") (lit "{item_id: row_1, days: 7}")
                 (lit "{success: true}")])
  /\ exists sd calls,
       svc_log Json (world Json (machine_of Json completed)) =
         svc_log Json (world Json connected) ++ sd
       /\ map fst calls = flat_map (requested Json) sd
       /\ peer_log Json (world Json (machine_of Json completed)) =
            peer_log Json (world Json connected) ++ map (call_event Json) calls
       /\ actions Json
            (mkResult Json (lit "Done! Logged your update.")
               [mkAction Json (lit "create_item") (lit "{title: Task A}")
                  (lit "{success: true}");
                mkAction Json (lit "add_reminder") (lit "{item_id: row_1, days: 7}")
                  (lit "{success: true}")])
          = map (call_action Json) calls
       /\ length
            (actions Json
               (mkResult Json (lit "Done! Logged your update.")
                  [mkAction Json (lit "create_item") (lit "{title: Task A}")
                     (lit "{success: true}");
                   mkAction Json (lit "add_reminder") (lit "{item_id: row_1, days: 7}")
                     (lit "{success: true}")]))
          = length (flat_map (requested Json) sd).
Proof.
  assert (H : outcome_of Json completed =
    Return (mkResult Json (lit "Done! Logged your update.")
              [mkAction Json (lit "create_item") (lit "{title: Task A}")
                 (lit "{success: true}");
               mkAction Json (lit "add_reminder") (lit "{item_id: row_1, days: 7}")
                 (lit "{success: true}")]))
    by (vm_compute; reflexivity).
  split; [exact H|].
  destruct (process_action_log Json stringify prompt UTC_zone fmt
              tools_then_done peer_resolves (lit "Create task A") now connected _ H)
    as (sd & calls & H1 & H2 & H3 & H4 & H5 & _).
  exists sd, calls. repeat split; assumption.
Defined.

(** Two tool calls in the first round, then a response that stops with
    [end_turn] and still asks for a tool. *)
Definition tools_then_end_turn_with_tool
  : list (SvcEvent Json) -> Request Json -> JsError + Response Json :=
  fun log _ => if (length log =? 0)%nat then inr two_tools else inr end_turn_with_tool.

(** The tool-invocation requests of every response of a run, final or
    not. *)
Definition all_requests (sd : list (SvcEvent Json)) : list (ToolUse Json) :=
  flat_map (requests_of Json) sd.

(** C3, counterexample to the claim as stated: the run returns, its
    responses hold three tool-invocation requests, and the peer is
    invoked twice; the request of the final response is not executed
    and has no entry in the action log. *)
Lemma final_request_not_invoked :
  outcome_of Json (run_process tools_then_end_turn_with_tool peer_resolves connected) =
    Return (mkResult Json (lit "Creating the task.")
              [mkAction Json (lit "create_item") (lit "{title: Task A}")
                 (lit "{success: true}");
               mkAction Json (lit "add_reminder") (lit "{item_id: row_1, days: 7}")
                 (lit "{success: true}")])
  /\ all_requests
       (new_svc connected
          (run_process tools_then_end_turn_with_tool peer_resolves connected))
     = [create_item; add_reminder; create_item]
  /\ new_peer connected
       (run_process tools_then_end_turn_with_tool peer_resolves connected)
     = [EvCallTool Json (lit "create_item") (lit "{title: Task A}")
          (inr (lit "{success: true}"));
        EvCallTool Json (lit "add_reminder") (lit "{item_id: row_1, days: 7}")
          (inr (lit "{success: true}"))].
Proof. vm_compute. repeat split; reflexivity. Qed.



(** C6, witness: an agent that never connected, and a first response
    that asks for tools. *)
Lemma process_not_connected_witness :
  (mcpClient Json (this Json fresh) = None
   /\ formatDateContext UTC_zone fmt now = inr dateContext)
  /\ process Json stringify prompt UTC_zone fmt (always two_tools) peer_resolves
       (lit "Create task A") now fresh =
     (Throw NotConnected,
      log_svc Json
        (next_request Json prompt
           (initial_frame Json (userMessage dateContext (lit "Create task A"))) fresh,
         inr two_tools)
        fresh).
Proof.
  assert (Hd : formatDateContext UTC_zone fmt now = inr dateContext)
    by (vm_compute; reflexivity).
  split; [split; [reflexivity|exact Hd]|].
  exact (process_not_connected Json stringify prompt UTC_zone fmt
           (always two_tools) peer_resolves (lit "Create task A") now fresh
           dateContext eq_refl Hd).
Defined.

(** C6, counterexample to the claim as stated: on an agent that never
    connected, [process] returns normally when the first response is
    final. *)
Lemma process_returns_unconnected :
  mcpClient Json (this Json fresh) = None
  /\ fst (process Json stringify prompt UTC_zone fmt (always done) peer_resolves
            (lit "Paid hydro bill") now fresh)
     = Return (mkResult Json (lit "Done! Logged your update.") []).
Proof. vm_compute. split; reflexivity. Qed.

(** C7, counterexample to the claim as stated: with no [NODE_ENV] and no
    [LIFERHYTHM_SHEET_ID] in the ambient environment, the child still
    gets both keys. *)
Lemma unset_keys_still_passed :
  ambient !! lit "NODE_ENV" = None
  /\ ambient !! lit "LIFERHYTHM_SHEET_ID" = None
  /\ mcpEnv ambient (lit "sheet-1") !! lit "NODE_ENV" = Some (Some (lit "production"))
  /\ mcpEnv ambient (lit "sheet-1") !! lit "LIFERHYTHM_SHEET_ID"
     = Some (Some (lit "sheet-1"))
  /\ mcpEnv ambient (lit "sheet-1") !! lit "ANTHROPIC_API_KEY" = None.
Proof. vm_compute. repeat split; reflexivity. Qed.

(** C8, witness: disconnecting the connected agent, once and twice. *)
Lemma disconnect_idempotent_witness :
  (disconnect Json peer_close ;; disconnect Json peer_close)%js connected
    = disconnect Json peer_close connected
  /\ mcpClient Json (this Json (snd (disconnect Json peer_close connected))) = None
  /\ disconnect Json peer_close fresh = (Return tt, fresh).
Proof.
  destruct (disconnect_idempotent Json peer_close connected) as (_ & Htwice & Hnone).
  destruct (disconnect_idempotent Json peer_close fresh) as (Hnoop & _).
  split; [exact Htwice|].
  split; [|exact (Hnoop eq_refl)].
  exact (proj1 (Hnone (snd (disconnect Json peer_close connected))
                  ltac:(vm_compute; reflexivity))).
Defined.

(** ** The conversation, the connection and the command line *)

Lemma process_conversation_witness :
  formatDateContext UTC_zone fmt now = inr dateContext
  /\ exists rounds en,
       svc_log Json (world Json (machine_of Json completed)) =
         svc_log Json (world Json connected)
         ++ map (round_svc Json) rounds ++ end_svc Json en
       /\ requests_ok Json stringify prompt (tools Json (this Json connected))
            [mkMessage Json user (Text Json (userMessage dateContext (lit "Create task A")))]
            rounds en.
Proof.
  assert (Hd : formatDateContext UTC_zone fmt now = inr dateContext)
    by (vm_compute; reflexivity).
  split; [exact Hd|].
  destruct (process_conversation Json stringify prompt UTC_zone fmt
              tools_then_done peer_resolves (lit "Create task A") now connected
              dateContext Hd) as (rounds & en & H1 & _ & H3 & _).
  exists rounds, en. split; [exact H1|exact H3].
Defined.

Lemma connect_tools_reach_service_witness :
  connect Json peer_connect peer_listTools fresh
    = (Return (tools Json (this Json connected)), connected)
  /\ this Json connected =
       mkAgent Json (mcpServerPath Json (this Json fresh)) (sheetId Json (this Json fresh))
         (Some new_client) (tools Json (this Json connected)).
Proof.
  assert (H : connect Json peer_connect peer_listTools fresh
              = (Return (tools Json (this Json connected)), connected))
    by (vm_compute; reflexivity).
  split; [exact H|].
  exact (proj1 (proj2 (connect_tools_reach_service Json stringify prompt UTC_zone fmt
                         tools_then_done peer_connect peer_listTools peer_resolves
                         fresh connected (tools Json (this Json connected)) H))).
Defined.

(** A peer whose child process cannot be started. *)
Definition spawn_error : JsError := Error (lit "spawn node ENOENT").
Definition peer_refuses (log : list (PeerEvent Json)) (c : Client) (t : Transport)
  : JsError + unit := inl spawn_error.

Lemma connect_failure_keeps_client_witness :
  fst (connect Json peer_refuses peer_listTools fresh) = Throw spawn_error
  /\ this Json (snd (connect Json peer_refuses peer_listTools fresh)) =
       mkAgent Json (mcpServerPath Json (this Json fresh)) (sheetId Json (this Json fresh))
         (Some new_client) (tools Json (this Json fresh)).
Proof.
  assert (H : fst (connect Json peer_refuses peer_listTools fresh) = Throw spawn_error)
    by (vm_compute; reflexivity).
  split; [exact H|].
  exact (proj1 (connect_failure_keeps_client Json peer_refuses peer_listTools
                  peer_resolves fresh spawn_error H)).
Defined.

(** The command line with one update, in the ambient environment with
    [SHEET_ID] set. *)
Definition with_key (penv : gmap jsstring jsstring) : JsError + unit :=
  match penv !! lit "ANTHROPIC_API_KEY" with
  | Some _ => inr tt
  | None => inl (Error (lit "The ANTHROPIC_API_KEY environment variable is missing"))
  end.

Definition shell : World Json :=
  mkWorld Json (<[lit "SHEET_ID" := lit "sheet-2"]> ambient) [] [].

Definition cli (argv : list jsstring) : Run Json :=
  main Json stringify prompt UTC_zone fmt tools_then_done peer_connect peer_listTools
    peer_resolves peer_close with_key (lit "/home/dean/liferhythm-mcp")
    argv t_2026_02_18_noon shell (mkTerminal [] []).

Lemma main_child_process_witness :
  with_key (process_env Json shell) = inr tt
  /\ exists m tr r rest,
       machine Json (cli [lit "Paid hydro bill today"]) = Some m
       /\ peer_log Json (world Json m) =
            peer_log Json shell ++ EvConnect Json new_client tr r :: rest
       /\ command tr = lit "node" /\ args tr = [lit "index.js"]
       /\ cwd tr = or_else (process_env Json shell !! lit "MCP_SERVER_PATH")
                     (lit "/home/dean/liferhythm-mcp")
       /\ env tr !! lit "LIFERHYTHM_SHEET_ID" =
            Some (Some (or_else (process_env Json shell !! lit "SHEET_ID")
                          (or_else (process_env Json shell !! lit "LIFERHYTHM_SHEET_ID")
                             (lit "1XJ5oA-FjBx7P_bn-gM2qL_Y5rXYFbFhSsw74ejyph-E")))).
Proof.
  assert (H : with_key (process_env Json shell) = inr tt) by (vm_compute; reflexivity).
  split; [exact H|].
  exact (main_child_process Json stringify prompt UTC_zone fmt tools_then_done
           peer_connect peer_listTools peer_resolves peer_close with_key
           (lit "/home/dean/liferhythm-mcp") [lit "Paid hydro bill today"]
           t_2026_02_18_noon shell (mkTerminal [] []) H).
Defined.

(** The same run, as it ends: the two tool calls are listed, the
    response is printed last and the connection is closed. *)
Example cli_single_update :
  status Json (cli [lit "Paid hydro bill today"]) = Returned
  /\ stdout (terminal Json (cli [lit "Paid hydro bill today"])) =
       [lit "LifeRhythm Agent connecting...";
        lit "Connected. 2 tool(s) available: create_item, add_reminder" ++ [10%N];
        lit "> Paid hydro bill today" ++ [10%N];
        lit "[Actions taken: create_item, add_reminder]";
        lit "Done! Logged your update."]
  /\ status Json (cli [lit "--verbose"]) = Exited 1
  /\ status Json (cli [lit "-i"; lit "Paid hydro bill today"]) = Interactive.
Proof. vm_compute. repeat split; reflexivity. Qed.

End Scenario.
